(** * Timecourse pipeline: regressor construction, sample mask, gap padding

    A shallow embedding of the per-run signal-conditioning code of
    [scripts/06.first_level/timecourse_pipeline.py]: the resolution of
    regressor aliases in [create_resting_workflow], the nested functions
    [create_motion_reg] and [denoise_data], and the numpy / pandas
    operations they rely on ([np.arange], [np.delete], [fillna], [iloc],
    [to_csv]).

    Python exceptions are modelled by the [result] monad, the file system
    by a finite map from paths to file contents, numpy integer vectors by
    [list Z], and float columns by lists of [cell]s in which the missing
    marker (NaN) is a constructor of its own. *)

From Stdlib Require Import ZArith QArith.QArith_base Ascii String Lia.
From stdpp Require Import base tactics option list list_numbers sorting
  strings pretty gmap.

Close Scope Q_scope.
Open Scope Z_scope.

(** ** Exceptions *)

Inductive exn : Set :=
| FileNotFoundError
| EmptyDataError
| ValueError
| KeyError
| IndexError
| ZeroDivisionError
| AttributeError.

Inductive result (A : Type) : Type :=
| Ok (a : A)
| Raise (e : exn).
Arguments Ok {A} a.
Arguments Raise {A} e.

#[global] Instance result_ret : MRet result := λ A, Ok.
#[global] Instance result_bind : MBind result := λ A B f m,
  match m with Ok a => f a | Raise e => Raise e end.
#[global] Instance result_fmap : FMap result := λ A B f m,
  match m with Ok a => Ok (f a) | Raise e => Raise e end.

Definition is_Ok {A} (r : result A) : Prop := ∃ a, r = Ok a.

(** ** numpy integer vectors *)

Module np.

(** [np.arange(n, dtype=np.int64)] *)
Definition arange (n : nat) : list Z := seqZ 0 (Z.of_nat n).

(** Bounds test of [np.delete] on an axis of length [N]: an index is
    accepted when [-N <= i < N]. *)
Definition in_bounds (N : Z) (i : Z) : bool :=
  bool_decide (- N ≤ i) && bool_decide (i < N).

(** Position addressed by an accepted index; negative ones count from the
    end. *)
Definition position (N : Z) (i : Z) : nat :=
  Z.to_nat (if bool_decide (i < 0) then i + N else i).

(** [keep = ones(N, dtype=bool); keep[obj,] = False] *)
Definition keep_mask (N : nat) (obj : list Z) : list bool :=
  foldl (λ keep i, <[position (Z.of_nat N) i := false]> keep)
        (replicate N true) obj.

(** [arr[keep]]: selection by a boolean mask. *)
Fixpoint select {A} (arr : list A) (keep : list bool) : list A :=
  match arr, keep with
  | a :: arr', b :: keep' =>
      if b then a :: select arr' keep' else select arr' keep'
  | _, _ => []
  end.

(** [np.delete(arr, obj)] for a flat [arr] and an integer index array
    [obj], as numpy does it since 1.19: an index outside [-N, N) raises
    [IndexError]; otherwise the addressed positions are dropped (an index
    repeated in [obj] drops its position once). *)
Definition delete {A} (arr : list A) (obj : list Z) : result (list A) :=
  let N := length arr in
  if forallb (in_bounds (Z.of_nat N)) obj
  then Ok (select arr (keep_mask N obj))
  else Raise IndexError.

(** [x in arr] for a numpy vector: [(arr == x).any()] *)
Definition contains (arr : list Z) (x : Z) : bool :=
  existsb (Z.eqb x) arr.

End np.

(** ** Sample mask: lines 195-204 of [create_motion_reg]

    [nrows] is [motion_params.shape[0]], [outliers] the parsed outlier
    column (empty when the outlier file was empty). *)

Definition scrub_requested (regressor_opts : list string) : bool :=
  bool_decide ("art" ∈ regressor_opts).

Definition retained_volumes (regressor_opts : list string) (nrows : nat)
    (outliers : list Z) : result (list Z) :=
  let vol_indx := np.arange nrows in
  if scrub_requested regressor_opts then
    if bool_decide (length outliers ≠ 0%nat)
    then np.delete vol_indx outliers
    else Ok vol_indx
  else Ok vol_indx.

(** ** pandas values: series, frames, text files *)

Module pd.

(** An entry of a float column; [NaN] is the missing marker ([n/a] in
    the confound table). *)
Inductive cell : Set :=
| NaN
| Num (x : Q).

Definition isna (c : cell) : bool :=
  match c with NaN => true | Num _ => false end.

(** A frame as loaded by [read_csv]: named columns, in file order. *)
Definition DataFrame : Type := list (string * list cell).

(** [df[name]]: the column, or [KeyError]. *)
Fixpoint getitem (df : DataFrame) (name : string) : result (list cell) :=
  match df with
  | [] => Raise KeyError
  | (k, col) :: df' => if bool_decide (k = name) then Ok col else getitem df' name
  end.

(** [series.fillna(v)] *)
Definition fillna (v : Q) (s : list cell) : list cell :=
  (λ c, match c with NaN => Num v | Num _ => c end) <$> s.

(** First position selected by the Python slice [start:] on [len] items. *)
Definition slice_start (len : nat) (start : Z) : nat :=
  if bool_decide (start < 0)
  then Z.to_nat (Z.max 0 (Z.of_nat len + start))
  else Z.to_nat (Z.min start (Z.of_nat len)).

(** [series.iloc[start:]] *)
Definition iloc_from (start : Z) (s : list cell) : list cell :=
  drop (slice_start (length s) start) s.

(** [pd.DataFrame(series_list).transpose()], by rows. The series are
    slices of one table taken from the same start, so they are aligned
    position by position; a position absent from a series reads [NaN].
    With no series the frame has no rows. *)
Definition frame_of_series (series : list (list cell)) : list (list cell) :=
  (λ i, (λ col, default NaN (col !! i)) <$> series)
    <$> seq 0 (max_list (length <$> series)).

(** [shape[0]] of a frame held by rows. *)
Definition shape0 {A} (rows : list A) : nat := length rows.

(** Text of a file split at line feeds. *)
Fixpoint lines_go (cur : string) (s : string) : list string :=
  match s with
  | EmptyString => [String.rev cur]
  | String a s' =>
      if Ascii.eqb a "010"%char
      then String.rev cur :: lines_go EmptyString s'
      else lines_go (String a cur) s'
  end.
Definition lines (s : string) : list string := lines_go EmptyString s.

Fixpoint parse_digits (acc : Z) (s : string) : option Z :=
  match s with
  | EmptyString => Some acc
  | String a s' =>
      d ← Ascii.is_nat a; parse_digits (10 * acc + Z.of_nat d) s'
  end.

(** A decimal integer with an optional leading minus sign. *)
Definition parse_int (s : string) : option Z :=
  match s with
  | EmptyString => None
  | String "-"%char EmptyString => None
  | String "-"%char s' => Z.opp <$> parse_digits 0 s'
  | _ => parse_digits 0 s
  end.

(** [pd.read_csv(path, header=None)[0].astype(int)] on a file holding one
    integer per row: a path that does not exist raises
    [FileNotFoundError], a file without any row raises [EmptyDataError],
    a row that is not an integer raises [ValueError]. *)
Definition read_int_column (fs : gmap string string) (path : string)
    : result (list Z) :=
  match fs !! path with
  | None => Raise FileNotFoundError
  | Some content =>
      match filter (λ l, l ≠ EmptyString) (lines content) with
      | [] => Raise EmptyDataError
      | rows =>
          match mapM parse_int rows with
          | Some col => Ok col
          | None => Raise ValueError
          end
      end
  end.

Definition join_with (sep : string) (fields : list string) : string :=
  match fields with
  | [] => EmptyString
  | f :: fs => foldl (λ acc g, acc +:+ sep +:+ g) f fs
  end.

(** [to_csv(path, index=False, header=False, sep='\t')]: one line per row,
    fields separated by tabs, every line ended by a line feed. *)
Definition to_csv {A} (field : A → string) (rows : list (list A)) : string :=
  foldr (λ row rest,
           join_with (String "009"%char EmptyString) (field <$> row)
           +:+ String "010"%char EmptyString +:+ rest)
        EmptyString rows.

End pd.

(** ** Paths and file names *)

(** [os.path.join(a, b)] *)
Definition path_join (a b : string) : string :=
  match b with
  | String "/"%char _ => b
  | _ =>
      match String.rev a with
      | EmptyString => b
      | String "/"%char _ => a +:+ b
      | _ => a +:+ "/" +:+ b
      end
  end.

(** ['{:02d}'.format(z)] *)
Definition format_02d (z : Z) : string :=
  let s := pretty z in
  match s with
  | String _ EmptyString => "0" +:+ s
  | _ => s
  end.

(** ** Regressor aliases: lines 143-158 of [create_resting_workflow] *)

Inductive dict_value : Set :=
| Label (c : string)
| Labels (cs : list string).

Definition regressor_dict : list (string * dict_value) :=
  [ ("FD", Label "framewise_displacement");
    ("DVARS", Label "std_dvars");
    ("aCompCor", Labels ["a_comp_cor_00"; "a_comp_cor_01"; "a_comp_cor_02";
                         "a_comp_cor_03"; "a_comp_cor_04"]) ].

(** [d[k]] as an option, and [d[k] = v] on an insertion-ordered dict: an
    existing key keeps its place. *)
Fixpoint dict_get {V} (d : list (string * V)) (k : string) : option V :=
  match d with
  | [] => None
  | (k', v) :: d' => if bool_decide (k' = k) then Some v else dict_get d' k
  end.

Fixpoint dict_set {V} (d : list (string * V)) (k : string) (v : V)
    : list (string * V) :=
  match d with
  | [] => [(k, v)]
  | (k', v') :: d' =>
      if bool_decide (k' = k) then (k, v) :: d' else (k', v') :: dict_set d' k v
  end.

(** [list({r: regressor_dict[r] for r in regressor_opts
           if r in regressor_dict}.values())] *)
Definition regressor_list (regressor_opts : list string) : list dict_value :=
  (foldl (λ d r, match dict_get regressor_dict r with
                 | Some v => dict_set d r v
                 | None => d
                 end) [] regressor_opts).*2.

(** The flattening loop. *)
Definition regressor_names (regressor_opts : list string) : list string :=
  foldl (λ names element,
           match element with
           | Labels items => foldl (λ ns item, ns ++ [item]) names items
           | Label c => names ++ [c]
           end) [] (regressor_list regressor_opts).

(** ** [create_motion_reg] *)

(** The loop over [regressor_names], lines 181-190. *)
Definition regressor_series (confounds : pd.DataFrame) (dropvols : Z)
    (regressor : string) : result (list pd.cell) :=
  if bool_decide (regressor = "framewise_displacement") then
    col ← pd.getitem confounds regressor;
    mret (pd.iloc_from dropvols (pd.fillna 0 col))
  else if bool_decide (regressor = "std_dvars") then
    col ← pd.getitem confounds regressor;
    mret (pd.iloc_from dropvols (pd.fillna 0 col))
  else
    col ← pd.getitem confounds regressor;
    mret (pd.iloc_from dropvols col).

Fixpoint regressors_loop (confounds : pd.DataFrame) (dropvols : Z)
    (regressor_names : list string) (regressors : list (list pd.cell))
    : result (list (list pd.cell)) :=
  match regressor_names with
  | [] => Ok regressors
  | regressor :: rest =>
      s ← regressor_series confounds dropvols regressor;
      regressors_loop confounds dropvols rest (regressors ++ [s])
  end.

(** The outlier file, lines 174-178: only [EmptyDataError] is caught. *)
Definition read_outliers (fs : gmap string string) (art_file : string)
    : result (list Z) :=
  match pd.read_int_column fs art_file with
  | Raise EmptyDataError => Ok []
  | r => r
  end.

Record regressor_outputs : Type := {
  motion_params : list (list pd.cell);
  vol_indx : list Z;
  outliers : list Z;
}.

Section create_motion_reg.

(** The external readers and printers: [pd.read_csv(text, sep='\t',
    na_values='n/a')] on the text of the confound file, and the text
    pandas prints for a float. *)
Context (read_table : string → result pd.DataFrame).
Context (float_repr : Q → string).

Definition cell_field (c : pd.cell) : string :=
  match c with pd.NaN => EmptyString | pd.Num x => float_repr x end.

Definition motion_file (outDir sub : string) (run_id : Z) : string :=
  path_join (path_join outDir "regressors")
    ("sub-" +:+ sub +:+ "_run-" +:+ format_02d run_id +:+ "_confounds.txt").

Definition scrub_file (outDir sub : string) (run_id : Z) : string :=
  path_join (path_join outDir "regressors")
    ("sub-" +:+ sub +:+ "_run-" +:+ format_02d run_id
       +:+ "_retained_volumes.txt").

Definition create_motion_reg (fs : gmap string string)
    (sub confound_file art_file : string)
    (regressor_opts regressor_names : list string)
    (dropvols : Z) (run_id : Z) (outDir : string)
    : result (gmap string string * regressor_outputs) :=
  confounds ←
    match fs !! confound_file with
    | Some text => read_table text
    | None => Raise FileNotFoundError
    end;
  outliers ← read_outliers fs art_file;
  regressors ← regressors_loop confounds dropvols regressor_names [];
  let motion_params := pd.frame_of_series regressors in
  vol_indx ←
    retained_volumes regressor_opts (pd.shape0 motion_params) outliers;
  let fs := <[motion_file outDir sub run_id :=
                pd.to_csv cell_field motion_params]> fs in
  let fs := <[scrub_file outDir sub run_id :=
                pd.to_csv pretty ((λ v, [v]) <$> vol_indx)]> fs in
  mret (fs, {| motion_params := motion_params;
               vol_indx := vol_indx;
               outliers := outliers |}).

(** The file system after the two [to_csv] calls of a run that returned
    [out]. *)
Definition persist (fs : gmap string string) (outDir sub : string)
    (run_id : Z) (out : regressor_outputs) : gmap string string :=
  <[scrub_file outDir sub run_id :=
      pd.to_csv pretty ((λ v, [v]) <$> vol_indx out)]>
    (<[motion_file outDir sub run_id :=
         pd.to_csv cell_field (motion_params out)]> fs).

(** The [regressorinfo] node: [create_motion_reg] wired to the names
    resolved from the configured options. *)
Definition regressorinfo (fs : gmap string string)
    (sub confound_file art_file : string) (regressor_opts : list string)
    (dropvols : Z) (run_id : Z) (outDir : string) :=
  create_motion_reg fs sub confound_file art_file regressor_opts
    (regressor_names regressor_opts) dropvols run_id outDir.

End create_motion_reg.

(** ** [denoise_data] *)

(** A 4-D series: its spatial shape and its volumes in time order, each
    volume holding its voxel values. *)
Record image : Type := {
  spatial : list nat;
  frames : list (list pd.cell);
}.

Inductive kwarg : Type :=
| Indices (m : list Z)
| Float (x : Q).

(** The arguments handed to [image.clean_img]. *)
Record clean_call : Type := {
  call_imgs : image;
  call_mask_img : image;
  call_confounds : list (list pd.cell);
  call_detrend : bool;
  call_standardize : option string;
  call_kwargs : list (string * kwarg);
}.

(** Lines 269-279: the keyword arguments for the chosen filter. *)
Definition kwargs_opts (filter_opt : string) (vol_indx : list Z)
    (TR hpf_hz : Q) : list (string * kwarg) :=
  if bool_decide (filter_opt = "butterworth") then
    [ ("clean__sample_mask", Indices vol_indx);
      ("clean__butterworth__t_r", Float TR);
      ("clean__butterworth__high_pass", Float hpf_hz) ]
  else if bool_decide (filter_opt = "cosine") then
    [ ("clean__sample_mask", Indices vol_indx);
      ("clean__cosine__t_r", Float TR);
      ("clean__cosine__high_pass", Float hpf_hz) ]
  else
    [ ("clean__sample_mask", Indices vol_indx) ].

(** Lines 249-282 up to the call: what [clean_img] is invoked with. The
    smoothing node hands over a list, of which the first entry is taken;
    [1/hpf] fails on a zero cutoff. *)
Definition clean_request (imgs : image + list image) (mni_mask : image)
    (motion_params : list (list pd.cell)) (vol_indx : list Z)
    (TR : Q) (hpf : Z) (filter_opt detrend standardize : string)
    : result clean_call :=
  imgs ← match imgs with
         | inl img => Ok img
         | inr [] => Raise IndexError
         | inr (img :: _) => Ok img
         end;
  let detrend_opt := bool_decide (detrend = "yes") in
  let standardize_opt :=
    if bool_decide (standardize ≠ "no") then Some standardize else None in
  hpf_hz ← (if bool_decide (hpf = 0) then Raise ZeroDivisionError
            else Ok (Qinv (inject_Z hpf)));
  mret {| call_imgs := imgs;
          call_mask_img := mni_mask;
          call_confounds := motion_params;
          call_detrend := detrend_opt;
          call_standardize := standardize_opt;
          call_kwargs := kwargs_opts filter_opt vol_indx TR hpf_hz |}.

(** [image.index_img(img, d)] *)
Definition index_img (img : image) (d : nat) : result (list pd.cell) :=
  match frames img !! d with
  | Some v => Ok v
  | None => Raise IndexError
  end.

(** The all-missing volume of lines 299-302, shaped like one volume of
    the denoised series. *)
Definition nan_vol (img_dim : list nat) : list pd.cell :=
  replicate (foldr Nat.mul 1%nat img_dim) pd.NaN.

(** The padding loop, lines 304-314: [d] is the cursor into the denoised
    series, [pad_imgs] the volumes collected so far. *)
Fixpoint pad_loop (denoise_img : image) (nan_img : list pd.cell)
    (vol_indx : list Z) (all_vols_vec : list Z) (d : nat)
    (pad_imgs : list (list pd.cell)) : result (list (list pd.cell)) :=
  match all_vols_vec with
  | [] => Ok pad_imgs
  | vol :: rest =>
      if np.contains vol_indx vol then
        tmp_vol ← index_img denoise_img d;
        pad_loop denoise_img nan_img vol_indx rest (S d)
          (pad_imgs ++ [tmp_vol])
      else
        pad_loop denoise_img nan_img vol_indx rest d (pad_imgs ++ [nan_img])
  end.

(** Lines 288-317: the padded series built from the denoised one. What
    [concat_imgs] returns is the sequence [pad_imgs] as one 4-D series. *)
Definition pad_denoised (denoise_img : image) (vol_indx : list Z)
    (nVols : nat) : result image :=
  let all_vols_vec := np.arange nVols in
  let nan_img := nan_vol (spatial denoise_img) in
  pad_imgs ← pad_loop denoise_img nan_img vol_indx all_vols_vec 0 [];
  mret {| spatial := spatial denoise_img; frames := pad_imgs |}.

Section denoise_data.

(** [nilearn.image.clean_img], external. *)
Context (clean_img : clean_call → result image).

(** Returns the denoised series and the padded series saved next to it. *)
Definition denoise_data (imgs : image + list image) (mni_mask : image)
    (motion_params : list (list pd.cell)) (vol_indx : list Z)
    (TR : Q) (hpf : Z) (filter_opt detrend standardize : string)
    : result (image * image) :=
  call ← clean_request imgs mni_mask motion_params vol_indx TR hpf
           filter_opt detrend standardize;
  denoised_data ← clean_img call;
  let nVols := length (frames (call_imgs call)) in
  pad_concat ← pad_denoised denoised_data vol_indx nVols;
  mret (denoised_data, pad_concat).

End denoise_data.

(** A volume whose every voxel is missing. *)
Definition all_missing (v : list pd.cell) : bool := forallb pd.isna v.

(** ** Specification of the padding loop *)

(** Number of mask entries below [v]: the cursor value when the loop
    reaches volume [v]. *)
Definition rank (mask : list Z) (v : Z) : nat :=
  length (filter (λ y, y < v) mask).

(** What the loop stores for volume [v]. *)
Definition slot (denoise_img : image) (nan_img : list pd.cell)
    (mask : list Z) (v : Z) : list pd.cell :=
  if np.contains mask v
  then default nan_img (frames denoise_img !! rank mask v)
  else nan_img.

(** ** A small run used in the examples *)

Module demo.

Definition confounds : pd.DataFrame :=
  [ ("framewise_displacement", [pd.NaN; pd.Num (1 # 2); pd.Num (1 # 4)]);
    ("std_dvars", [pd.NaN; pd.Num 1; pd.Num 2]);
    ("a_comp_cor_00", [pd.Num 3; pd.NaN; pd.Num 4]);
    ("a_comp_cor_01", [pd.Num 5; pd.Num 5; pd.Num 5]);
    ("a_comp_cor_02", [pd.Num 6; pd.Num 6; pd.Num 6]);
    ("a_comp_cor_03", [pd.Num 7; pd.Num 7; pd.Num 7]);
    ("a_comp_cor_04", [pd.Num 8; pd.Num 8; pd.Num 8]) ].

(** A reader that knows one confound file only. *)
Definition read_table (text : string) : result pd.DataFrame :=
  if bool_decide (text = "confounds") then Ok confounds else Raise ValueError.

(** Floats printed as fractions. *)
Definition float_repr (x : Q) : string :=
  pretty (Qnum x) +:+ "/" +:+ pretty (Z.pos (Qden x)).

Definition line (s : string) : string := s +:+ String "010"%char EmptyString.
Definition tabbed (fields : list string) : string :=
  pd.join_with (String "009"%char EmptyString) fields.

(** A file system with the confound file and an outlier file naming
    volume 1. *)
Definition fs : gmap string string :=
  {[ "conf.tsv" := "confounds"; "art.txt" := line "1" ]}.

(** The same with one more, unrelated file; with an outlier file of zero
    bytes; without any outlier file. *)
Definition fs_other : gmap string string := <["notes.txt" := "unrelated"]> fs.
Definition fs_empty_art : gmap string string := <["art.txt" := EmptyString]> fs.
Definition fs_no_art : gmap string string := {[ "conf.tsv" := "confounds" ]}.

(** A series of one volume with a single voxel. *)
Definition img : image := {| spatial := [1%nat]; frames := [[pd.Num 1]] |}.

(** What the builder returns on [fs] for the options [FD] and [art]. *)
Definition out : regressor_outputs :=
  {| motion_params := [[pd.Num 0]; [pd.Num (1 # 2)]; [pd.Num (1 # 4)]];
     vol_indx := [0; 2];
     outliers := [1] |}.

Definition run (fs : gmap string string) (regressor_opts : list string) :=
  regressorinfo read_table float_repr fs "01" "conf.tsv" "art.txt"
    regressor_opts 0 1 "/out".

End demo.

(** ** Specification of the alias resolution *)

(** The columns one requested kind stands for; none for a kind outside
    the table. *)
Definition alias_columns (r : string) : list string :=
  match dict_get regressor_dict r with
  | Some (Label c) => [c]
  | Some (Labels cs) => cs
  | None => []
  end.

(** ** The [regressors] entry of the configuration file: lines 468 and 480
       of [main] *)

(** The value found at [config_file.loc['regressors',1]]. The table comes
    from [pd.read_csv], and line 468 has replaced every missing entry by
    [None]: the value is a str, [None] for an entry that pandas read as
    missing, or a number when the whole column was read as numbers. *)
Inductive config_value : Set :=
| PyStr (s : string)
| PyNone
| PyNumber (x : Q).

(** [s.replace(' ', '')] *)
Fixpoint remove_spaces (s : string) : string :=
  match s with
  | EmptyString => EmptyString
  | String c s' =>
      if Ascii.eqb c " "%char then remove_spaces s'
      else String c (remove_spaces s')
  end.

(** [s.split(',')]: every comma ends a field, empty fields are kept. *)
Fixpoint split_go (cur : string) (s : string) : list string :=
  match s with
  | EmptyString => [String.rev cur]
  | String c s' =>
      if Ascii.eqb c ","%char
      then String.rev cur :: split_go EmptyString s'
      else split_go (String c cur) s'
  end.
Definition split_commas (s : string) : list string := split_go EmptyString s.

(** [config_file.loc['regressors',1].replace(' ','').split(',')]: the two
    methods are those of a str; [None] and a number have no [replace]. *)
Definition config_regressors (value : config_value) : result (list string) :=
  match value with
  | PyStr s => Ok (split_commas (remove_spaces s))
  | PyNone => Raise AttributeError
  | PyNumber _ => Raise AttributeError
  end.

(** ** Eligible runs: lines 401-409 of [process_subject] *)

(** A row of the scans table with the columns the selection reads: the
    task and run labels cut out of the file name (the run label is absent
    when the file names carry none) and the motion-exclusion flag. *)
Record scan_row : Type := {
  scan_task : string;
  scan_run : option string;
  MotionExclusion : bool;
}.

(** The row test of line 402. *)
Definition eligible (task : string) (sub_runs : list Z) (row : scan_row)
    : bool :=
  negb (MotionExclusion row)
  && bool_decide (scan_task row = task)
  && match scan_run row with
     | Some run => bool_decide (run ∈ format_02d <$> sub_runs)
     | None => false
     end.

(** [keepruns]: the run labels of the eligible rows as integers, in table
    order; [FileNotFoundError] when there is none. *)
Definition keepruns (scans_df : list scan_row) (task : string)
    (sub_runs : list Z) : result (list Z) :=
  let runs := scan_run <$> filter (λ row, eligible task sub_runs row = true)
                             scans_df in
  match mapM (λ run, run ≫= pd.parse_int) runs with
  | None => Raise ValueError
  | Some [] => Raise FileNotFoundError
  | Some keepruns => Ok keepruns
  end.

(** ** [data_grabber]: lines 59-101 of [create_resting_workflow]

    The file system holds files only; directories are implicit, so
    [os.makedirs] has nothing to do, [os.path.exists] is asked about files,
    and two paths name the same file when they are the same string. *)

(** [os.path.basename] *)
Fixpoint basename_go (cur : string) (s : string) : string :=
  match s with
  | EmptyString => String.rev cur
  | String c s' =>
      if Ascii.eqb c "/"%char then basename_go EmptyString s'
      else basename_go (String c cur) s'
  end.
Definition basename (s : string) : string := basename_go EmptyString s.

Inductive copy_error : Set :=
| SrcNotFound   (* FileNotFoundError *)
| SameFile.     (* shutil.SameFileError *)

(** [shutil.copy(src, dst)] into the directory [dst]: the copy takes the
    base name of [src]; a source that does not exist is an error, and so
    is copying an existing file onto itself. *)
Definition shutil_copy (fs : gmap string string) (src dst : string)
    : copy_error + gmap string string :=
  let dst := path_join dst (basename src) in
  match fs !! src with
  | None => inl SrcNotFound
  | Some content =>
      if bool_decide (src = dst) then inl SameFile
      else inr (<[dst := content]> fs)
  end.

(** The local variables [prefix], [funcDir], [mni_mask], [smooth_file] and
    [preprocDir] of [data_grabber]. *)
Definition run_prefix (sub task ses : string) (run_id : Z) : string :=
  if bool_decide (ses ≠ "no")
  then "sub-" +:+ sub +:+ "_ses-" +:+ ses +:+ "_task-" +:+ task
       +:+ "_run-" +:+ format_02d run_id
  else "sub-" +:+ sub +:+ "_task-" +:+ task +:+ "_run-" +:+ format_02d run_id.

Definition funcDir (derivDir sub ses : string) : string :=
  if bool_decide (ses ≠ "no")
  then path_join (path_join (path_join derivDir ("sub-" +:+ sub))
                    ("ses-" +:+ ses)) "func"
  else path_join (path_join derivDir ("sub-" +:+ sub)) "func".

Definition mask_file (derivDir sub ses : string) : string :=
  if bool_decide (ses ≠ "no")
  then path_join (funcDir derivDir sub ses)
         ("sub-" +:+ sub +:+ "_ses-" +:+ ses
          +:+ "_space-MNI152NLin2009cAsym_res-2_desc-brain_mask_allruns-BOLDmask.nii.gz")
  else path_join (funcDir derivDir sub ses)
         ("sub-" +:+ sub
          +:+ "_space-MNI152NLin2009cAsym_res-2_desc-brain_mask_allruns-BOLDmask.nii.gz").

Definition smooth_file (smoothDir sub task ses : string) (run_id : Z)
    : string :=
  path_join (path_join (path_join (path_join smoothDir ("sub-" +:+ sub))
                          "preproc") ("run" +:+ pretty run_id))
    (run_prefix sub task ses run_id
     +:+ "_space-MNI-preproc_bold_smooth.nii.gz").

Definition preprocDir (outDir : string) (run_id : Z) : string :=
  path_join (path_join outDir "preproc") ("run" +:+ pretty run_id).

Record grabbed : Type := {
  grab_confound_file : string;
  grab_art_file : string;
  grab_mni_file : string;
  grab_mni_mask : string;
}.

(** The image handed on, lines 80 and 86-94: the smoothed file when a
    results directory is configured and holds it, the fMRIPrep output
    otherwise. [smoothDir] is [None] when the configuration names no
    results directory; an empty string counts as none, too. *)
Definition mni_file (fs : gmap string string) (sub task derivDir : string)
    (smoothDir : option string) (ses : string) (run_id : Z) : string :=
  let mni_file :=
    path_join (funcDir derivDir sub ses)
      (run_prefix sub task ses run_id
       +:+ "_space-MNI152NLin2009cAsym_res-2_desc-preproc_bold.nii.gz") in
  match smoothDir with
  | Some dir =>
      if bool_decide (dir ≠ EmptyString) then
        if bool_decide (is_Some (fs !! smooth_file dir sub task ses run_id))
        then smooth_file dir sub task ses run_id
        else mni_file
      else mni_file
  | None => mni_file
  end.

Definition data_grabber (fs : gmap string string) (sub task derivDir : string)
    (smoothDir : option string) (ses : string) (run_id : Z) (outDir : string)
    : copy_error + (gmap string string * grabbed) :=
  let prefix := run_prefix sub task ses run_id in
  let funcDir := funcDir derivDir sub ses in
  let mni_mask := mask_file derivDir sub ses in
  let confound_file :=
    path_join funcDir (prefix +:+ "_desc-confounds_timeseries.tsv") in
  let art_file :=
    path_join (path_join (path_join funcDir "art")
                 (task +:+ format_02d run_id))
      ("art." +:+ prefix
       +:+ "_space-MNI152NLin2009cAsym_res-2_desc-preproc_bold_outliers.txt") in
  let mni_file := mni_file fs sub task derivDir smoothDir ses run_id in
  match shutil_copy fs mni_file (preprocDir outDir run_id) with
  | inl e => inl e
  | inr fs' =>
      inr (fs', {| grab_confound_file := confound_file;
                   grab_art_file := art_file;
                   grab_mni_file := mni_file;
                   grab_mni_mask := mni_mask |})
  end.

(** Files of one run, used in the examples. *)
Module grab_demo.

Definition image_path : string :=
  "/deriv/sub-01/func/sub-01_task-rest_run-01_space-MNI152NLin2009cAsym_res-2_desc-preproc_bold.nii.gz".
Definition copy_path : string :=
  "/out/sub-01/preproc/run1/sub-01_task-rest_run-01_space-MNI152NLin2009cAsym_res-2_desc-preproc_bold.nii.gz".
Definition smoothed_path : string :=
  "/res/sub-01/preproc/run1/sub-01_task-rest_run-01_space-MNI-preproc_bold_smooth.nii.gz".

(** Only the fMRIPrep image; only the smoothed image. *)
Definition fs : gmap string string := {[ image_path := "bold" ]}.
Definition smoothed_fs : gmap string string :=
  {[ smoothed_path := "smoothed" ]}.

Definition files : grabbed :=
  {| grab_confound_file :=
       "/deriv/sub-01/func/sub-01_task-rest_run-01_desc-confounds_timeseries.tsv";
     grab_art_file :=
       "/deriv/sub-01/func/art/rest01/art.sub-01_task-rest_run-01_space-MNI152NLin2009cAsym_res-2_desc-preproc_bold_outliers.txt";
     grab_mni_file := image_path;
     grab_mni_mask :=
       "/deriv/sub-01/func/sub-01_space-MNI152NLin2009cAsym_res-2_desc-brain_mask_allruns-BOLDmask.nii.gz" |}.

End grab_demo.

(** * Properties *)

(** Closed decidable side conditions are settled by evaluation. *)
Ltac by_compute :=
  match goal with
  | |- ?P => apply (bool_decide_unpack P); vm_compute; exact I
  end.

(** ** numpy vectors *)

Lemma length_keep_mask N obj : length (np.keep_mask N obj) = N.
Proof.
  unfold np.keep_mask.
  assert (∀ keep : list bool,
    length (foldl (λ keep i, <[np.position (Z.of_nat N) i := false]> keep)
              keep obj) = length keep) as H.
  { induction obj as [|i obj IH]; intros keep; simpl; [done|].
    by rewrite IH, length_insert. }
  by rewrite H, length_replicate.
Qed.

Lemma lookup_keep_mask N obj (p : nat) :
  (p < N)%nat →
  np.keep_mask N obj !! p
  = Some (bool_decide (p ∉ np.position (Z.of_nat N) <$> obj)).
Proof.
  intros Hp. unfold np.keep_mask.
  assert (∀ keep : list bool, (p < length keep)%nat →
    foldl (λ keep i, <[np.position (Z.of_nat N) i := false]> keep) keep obj
      !! p
    = (λ b, b && bool_decide (p ∉ np.position (Z.of_nat N) <$> obj))
        <$> keep !! p) as H.
  { induction obj as [|i obj IH]; intros keep Hk.
    - destruct (keep !! p) as [b|] eqn:E; simpl; [|done].
      by rewrite andb_true_r.
    - cbn [foldl]. rewrite IH by (by rewrite length_insert).
      rewrite fmap_cons.
      destruct (decide (np.position (Z.of_nat N) i = p)) as [Heq|Hne].
      + rewrite Heq, list_lookup_insert_eq by done.
        destruct (lookup_lt_is_Some_2 keep _ Hk) as [b ->]. cbn [fmap option_fmap option_map].
        rewrite (bool_decide_eq_false_2 (p ∉ p :: _))
          by (intros Hn; apply Hn; left).
        by rewrite andb_false_r.
      + rewrite list_lookup_insert_ne by done.
        destruct (keep !! p) as [b|]; cbn [fmap option_fmap option_map]; [|done].
        rewrite (bool_decide_ext (p ∉ _ :: _) (p ∉ np.position (Z.of_nat N) <$> obj));
          [done|].
        rewrite not_elem_of_cons. split; [by intros [_ ?]|by split]. }
  rewrite H; [|by rewrite length_replicate].
  by rewrite lookup_replicate_2.
Qed.

Lemma keep_mask_seq N obj :
  np.keep_mask N obj
  = (λ p, bool_decide (p ∉ np.position (Z.of_nat N) <$> obj)) <$> seq 0 N.
Proof.
  apply list_eq. intros p. rewrite list_lookup_fmap.
  destruct (decide (p < N)%nat) as [Hp|Hp].
  - rewrite lookup_keep_mask by done. by rewrite lookup_seq_lt.
  - rewrite lookup_ge_None_2 by (rewrite length_keep_mask; lia).
    by rewrite lookup_seq_ge by lia.
Qed.

Lemma select_fmap_seq {A} (g : nat → A) (f : nat → bool) s len :
  np.select (g <$> seq s len) (f <$> seq s len)
  = g <$> filter (λ p, f p = true) (seq s len).
Proof.
  revert s. induction len as [|len IH]; intros s; simpl; [done|].
  rewrite filter_cons. destruct (f s) eqn:E.
  - rewrite decide_True by done. simpl. by rewrite IH.
  - rewrite decide_False by congruence. apply IH.
Qed.

Lemma length_select {A} (arr : list A) keep :
  (length (np.select arr keep) ≤ length arr)%nat.
Proof.
  revert keep. induction arr as [|a arr IH]; intros [|[] keep]; simpl;
    try lia; specialize (IH keep); lia.
Qed.

Lemma arange_seq n : np.arange n = Z.of_nat <$> seq 0 n.
Proof.
  unfold np.arange, seqZ. rewrite Nat2Z.id.
  apply list_fmap_ext. intros _ p _. lia.
Qed.

Lemma length_arange n : length (np.arange n) = n.
Proof. unfold np.arange. rewrite length_seqZ. lia. Qed.

Lemma elem_of_arange n v : v ∈ np.arange n ↔ 0 ≤ v < Z.of_nat n.
Proof. unfold np.arange. rewrite elem_of_seqZ. lia. Qed.

Lemma filter_fmap_seq (f : nat → bool) (P : Z → Prop)
    `{∀ v, Decision (P v)} s len :
  (∀ p : nat, f p = true ↔ P (Z.of_nat p)) →
  Z.of_nat <$> filter (λ p, f p = true) (seq s len)
  = filter P (Z.of_nat <$> seq s len).
Proof.
  intros Hf. revert s. induction len as [|len IH]; intros s; [done|].
  cbn [seq]. rewrite fmap_cons, !filter_cons.
  destruct (decide (f s = true)) as [E|E].
  - rewrite decide_True by (by apply Hf). by rewrite fmap_cons, IH.
  - rewrite decide_False by (by rewrite <- Hf). apply IH.
Qed.

Lemma filter_all {A} (P : A → Prop) `{∀ x, Decision (P x)} (l : list A) :
  (∀ x, P x) → filter P l = l.
Proof.
  intros HP. induction l as [|x l IH]; [done|].
  by rewrite filter_cons, decide_True, IH.
Qed.

Lemma filter_none {A} (P : A → Prop) `{∀ x, Decision (P x)} (l : list A) :
  (∀ x, x ∈ l → ¬ P x) → filter P l = [].
Proof.
  induction l as [|x l IH]; intros HP; [done|].
  rewrite filter_cons, decide_False by (apply HP; left).
  apply IH. intros y Hy. apply HP. by right.
Qed.

Lemma StronglySorted_seqZ m n : StronglySorted Z.lt (seqZ m n).
Proof.
  destruct (decide (0 ≤ n)) as [Hn|Hn]; [|rewrite seqZ_nil by lia; constructor].
  revert m. pattern n. apply natlike_ind; [| |done].
  - intros m. rewrite seqZ_nil by lia. constructor.
  - intros k Hk IH m. rewrite seqZ_cons by lia.
    replace (Z.pred (Z.succ k)) with k by lia.
    constructor; [apply IH|].
    apply Forall_seqZ. lia.
Qed.

Lemma StronglySorted_filter {A} (R : relation A) (P : A → Prop)
    `{∀ x, Decision (P x)} l :
  StronglySorted R l → StronglySorted R (filter P l).
Proof.
  induction 1 as [|x l Hl IH Hx]; [constructor|].
  rewrite filter_cons. destruct (decide (P x)); [|done].
  constructor; [done|].
  apply Forall_forall. intros y Hy%list_elem_of_filter.
  rewrite Forall_forall in Hx. apply Hx, Hy.
Qed.

(** Deleting in-range, non-negative indices from [[0, n)] leaves exactly
    the values outside the index list, in increasing order. *)
Lemma delete_arange n (obj : list Z) :
  Forall (λ i, 0 ≤ i < Z.of_nat n) obj →
  np.delete (np.arange n) obj = Ok (filter (λ v, v ∉ obj) (np.arange n)).
Proof.
  intros Hobj. unfold np.delete. rewrite length_arange.
  assert (forallb (np.in_bounds (Z.of_nat n)) obj = true) as ->.
  { apply Is_true_true, forallb_True. eapply Forall_impl; [exact Hobj|].
    intros i [Hlo Hhi]. unfold np.in_bounds.
    rewrite !bool_decide_eq_true_2 by lia. done. }
  f_equal. rewrite keep_mask_seq, arange_seq, select_fmap_seq.
  apply filter_fmap_seq. intros p. rewrite bool_decide_eq_true.
  rewrite !list_elem_of_fmap. rewrite Forall_forall in Hobj.
  split; intros Hp Hin; apply Hp.
  - exists (Z.of_nat p). split; [|done]. unfold np.position.
    rewrite bool_decide_eq_false_2 by lia. lia.
  - destruct Hin as (i & -> & Hi). specialize (Hobj i Hi).
    unfold np.position. rewrite bool_decide_eq_false_2 by lia.
    by rewrite Z2Nat.id by lia.
Qed.

Lemma delete_out_of_bounds {A} (arr : list A) (obj : list Z) :
  Exists (λ i, Z.of_nat (length arr) ≤ i) obj →
  np.delete arr obj = Raise IndexError.
Proof.
  intros (i & Hi & Hge)%Exists_exists. unfold np.delete.
  destruct (forallb _ obj) eqn:E; [|done].
  apply Is_true_true, forallb_True in E. rewrite Forall_forall in E.
  specialize (E i Hi). unfold np.in_bounds in E.
  apply Is_true_true, andb_true_iff in E as [_ E].
  apply bool_decide_eq_true in E. lia.
Qed.

Lemma length_complement n (obj : list Z) :
  Forall (λ i, 0 ≤ i < Z.of_nat n) obj →
  length (filter (λ v, v ∉ obj) (np.arange n))
  = (n - size (list_to_set obj : gset Z))%nat.
Proof.
  intros Hobj. rewrite Forall_forall in Hobj.
  rewrite <- (size_list_to_set (C:=gset Z))
    by (apply NoDup_filter, NoDup_seqZ).
  replace (list_to_set (filter (λ v, v ∉ obj) (np.arange n)) : gset Z)
    with ((list_to_set (np.arange n) : gset Z) ∖ list_to_set obj).
  - rewrite size_difference.
    + rewrite size_list_to_set by apply NoDup_seqZ.
      by rewrite length_arange.
    + intros v Hv%elem_of_list_to_set. apply elem_of_list_to_set.
      apply elem_of_arange. auto.
  - apply set_eq. intros v.
    rewrite elem_of_difference, !elem_of_list_to_set, list_elem_of_filter.
    tauto.
Qed.


(** ** The sample mask *)

Lemma sample_mask_complement
    (regressor_opts : list string) (n : nat) (outliers : list Z) :
  "art" ∈ regressor_opts →
  Forall (λ i, 0 ≤ i < Z.of_nat n) outliers →
  retained_volumes regressor_opts n outliers
  = Ok (filter (λ v, v ∉ outliers) (np.arange n)) ∧
  StronglySorted Z.lt (filter (λ v, v ∉ outliers) (np.arange n)).
Proof.
  intros Hart Hobj. split.
  - unfold retained_volumes, scrub_requested.
    rewrite bool_decide_eq_true_2 by done.
    case_bool_decide as Hlen; [by apply delete_arange|].
    destruct outliers; [|done]. f_equal.
    symmetry. apply filter_all. intros v. apply not_elem_of_nil.
  - apply StronglySorted_filter, StronglySorted_seqZ.
Qed.

(** C10. The sample-mask computation needs every outlier index below the
    post-drop row count [n]: with scrubbing requested, an outlier list
    holding an index [>= n] makes the deletion raise [IndexError] and no
    mask is returned, while outlier lists within [[0, n)] always yield a
    mask. *)
Theorem sample_mask_index_precondition
    (regressor_opts : list string) (n : nat) (outliers : list Z) :
  ("art" ∈ regressor_opts →
   Exists (λ i, Z.of_nat n ≤ i) outliers →
   retained_volumes regressor_opts n outliers = Raise IndexError) ∧
  (Forall (λ i, 0 ≤ i < Z.of_nat n) outliers →
   is_Ok (retained_volumes regressor_opts n outliers)).
Proof.
  split.
  - intros Hart Hex. unfold retained_volumes, scrub_requested.
    rewrite bool_decide_eq_true_2 by done.
    rewrite bool_decide_eq_true_2
      by (destruct outliers; [by apply Exists_nil in Hex|done]).
    apply delete_out_of_bounds. by rewrite length_arange.
  - intros Hobj. unfold retained_volumes.
    destruct (scrub_requested regressor_opts); [|by eexists].
    case_bool_decide; [|by eexists].
    rewrite delete_arange by done. by eexists.
Qed.

Lemma sample_mask_index_precondition_witness :
  retained_volumes ["art"] 3 [1; 3] = Raise IndexError ∧
  is_Ok (retained_volumes ["art"] 3 [1; 2]).
Proof.
  split.
  - apply (sample_mask_index_precondition ["art"] 3 [1; 3]).
    + by_compute.
    + apply Exists_cons_tl, Exists_cons_hd. lia.
  - apply (sample_mask_index_precondition ["art"] 3 [1; 2]).
    repeat constructor; lia.
Defined.

(** ** The padding loop *)

Lemma contains_elem_of (arr : list Z) (x : Z) :
  np.contains arr x = true ↔ x ∈ arr.
Proof.
  unfold np.contains. rewrite existsb_exists. split.
  - intros (y & Hy & ->%Z.eqb_eq). by apply list_elem_of_In.
  - intros Hx. exists x. split; [by apply list_elem_of_In|apply Z.eqb_refl].
Qed.

Lemma rank_succ_notin mask v : v ∉ mask → rank mask (v + 1) = rank mask v.
Proof.
  unfold rank. induction mask as [|y mask IH]; [done|].
  intros [Hne Hnin]%not_elem_of_cons. rewrite !filter_cons.
  destruct (decide (y < v + 1)), (decide (y < v)); simpl;
    rewrite ?IH by done; lia.
Qed.

Lemma rank_succ_in mask v :
  NoDup mask → v ∈ mask → rank mask (v + 1) = S (rank mask v).
Proof.
  unfold rank. induction mask as [|y mask IH]; intros Hnd Hin.
  { by apply elem_of_nil in Hin. }
  apply NoDup_cons in Hnd as [Hy Hnd]. rewrite !filter_cons.
  apply elem_of_cons in Hin as [->|Hin].
  - rewrite decide_True, decide_False by lia. simpl.
    f_equal. by apply rank_succ_notin.
  - assert (y ≠ v) by (by intros ->).
    destruct (decide (y < v + 1)), (decide (y < v)); simpl;
      rewrite ?IH by done; lia.
Qed.

Lemma rank_lt_length mask v : v ∈ mask → (rank mask v < length mask)%nat.
Proof. intros Hv. eapply length_filter_lt; [exact Hv|lia]. Qed.

Lemma rank_sorted_lookup mask (j : nat) v :
  StronglySorted Z.lt mask → mask !! j = Some v → rank mask v = j.
Proof.
  intros Hs. revert j. unfold rank.
  induction Hs as [|x l Hl IH Hx]; intros j Hj; [done|].
  rewrite Forall_forall in Hx. rewrite filter_cons. destruct j as [|j].
  - injection Hj as ->. rewrite decide_False by lia.
    rewrite filter_none; [done|].
    intros y Hy. specialize (Hx y Hy). lia.
  - simpl in Hj. rewrite decide_True.
    + simpl. f_equal. by apply IH.
    + apply Hx. by eapply list_elem_of_lookup_2.
Qed.

Lemma pad_loop_seqZ denoise_img nan_img mask (k : nat) :
  NoDup mask →
  (length mask ≤ length (frames denoise_img))%nat →
  ∀ s d pad_imgs,
    d = rank mask s →
    pad_loop denoise_img nan_img mask (seqZ s (Z.of_nat k)) d pad_imgs
    = Ok (pad_imgs
            ++ (slot denoise_img nan_img mask <$> seqZ s (Z.of_nat k))).
Proof.
  intros Hnd Hlen. induction k as [|k IH]; intros s d pad_imgs ->.
  { simpl. by rewrite app_nil_r. }
  rewrite seqZ_cons by lia.
  replace (Z.pred (Z.of_nat (S k))) with (Z.of_nat k) by lia.
  rewrite fmap_cons. cbn [pad_loop].
  assert (slot denoise_img nan_img mask s
          = if np.contains mask s
            then default nan_img (frames denoise_img !! rank mask s)
            else nan_img) as -> by done.
  destruct (np.contains mask s) eqn:Hc.
  - apply contains_elem_of in Hc as Hin.
    pose proof (rank_lt_length _ _ Hin) as Hr.
    unfold index_img.
    destruct (lookup_lt_is_Some_2 (frames denoise_img) (rank mask s))
      as [f Hf]; [lia|].
    rewrite Hf. cbn [mbind result_bind default].
    rewrite (IH (Z.succ s) (S (rank mask s))).
    + by rewrite <- app_assoc.
    + symmetry. rewrite <- Z.add_1_r. by apply rank_succ_in.
  - assert (s ∉ mask) as Hnin.
    { intros Hs%contains_elem_of. congruence. }
    rewrite (IH (Z.succ s) (rank mask s)).
    + by rewrite <- app_assoc.
    + symmetry. rewrite <- Z.add_1_r. by apply rank_succ_notin.
Qed.

Lemma StronglySorted_lt_NoDup (l : list Z) : StronglySorted Z.lt l → NoDup l.
Proof.
  induction 1 as [|x l Hl IH Hx]; constructor; [|done].
  rewrite Forall_forall in Hx. intros Hin. specialize (Hx x Hin). lia.
Qed.

Lemma all_missing_nan_vol img_dim : all_missing (nan_vol img_dim) = true.
Proof.
  unfold all_missing, nan_vol.
  induction (foldr Nat.mul 1%nat img_dim) as [|m IH]; [done|]. exact IH.
Qed.

(** The padded series, frame by frame: length [nVols], the missing volume
    at every index outside the mask, and at the [j]-th mask entry the
    [j]-th denoised volume. *)
Lemma rank_lower_bound mask s : (∀ v, v ∈ mask → s ≤ v) → rank mask s = 0%nat.
Proof.
  intros Hm. unfold rank. rewrite filter_none; [done|].
  intros y Hy. specialize (Hm y Hy). lia.
Qed.

Lemma pad_denoised_frames denoise_img (vol_indx : list Z) (nVols : nat) :
  StronglySorted Z.lt vol_indx →
  Forall (λ v, 0 ≤ v < Z.of_nat nVols) vol_indx →
  length (frames denoise_img) = length vol_indx →
  ∃ padded,
    pad_denoised denoise_img vol_indx nVols = Ok padded ∧
    spatial padded = spatial denoise_img ∧
    length (frames padded) = nVols ∧
    (∀ i : nat, (i < nVols)%nat → Z.of_nat i ∉ vol_indx →
       frames padded !! i = Some (nan_vol (spatial denoise_img))) ∧
    (∀ (j : nat) v, vol_indx !! j = Some v →
       frames padded !! Z.to_nat v = frames denoise_img !! j ∧
       is_Some (frames denoise_img !! j)).
Proof.
  intros Hs Hrange Hlen. pose proof (StronglySorted_lt_NoDup _ Hs) as Hnd.
  rewrite Forall_forall in Hrange.
  unfold pad_denoised, np.arange.
  rewrite (pad_loop_seqZ _ _ _ nVols Hnd).
  2: lia.
  2: { symmetry. apply rank_lower_bound. intros v Hv.
       specialize (Hrange v Hv). lia. }
  cbn [mbind result_bind mret result_ret app].
  eexists. split; [done|]. cbn [frames spatial].
  split; [done|]. split; [|split].
  - rewrite length_fmap, length_seqZ. lia.
  - intros i Hi Hnin. rewrite list_lookup_fmap, lookup_seqZ_lt by lia.
    cbn. unfold slot.
    destruct (np.contains vol_indx _) eqn:E; [|done].
    apply contains_elem_of in E. by destruct Hnin.
  - intros j v Hj.
    pose proof (Hrange v (list_elem_of_lookup_2 _ _ _ Hj)) as Hv.
    assert (is_Some (frames denoise_img !! j)) as [f Hf].
    { apply lookup_lt_is_Some_2. rewrite Hlen. by eapply lookup_lt_Some. }
    split; [|by eexists].
    rewrite list_lookup_fmap, lookup_seqZ_lt by lia. cbn.
    rewrite Z2Nat.id, Z.add_0_l by lia. unfold slot.
    rewrite (proj2 (contains_elem_of vol_indx v))
      by (by eapply list_elem_of_lookup_2).
    rewrite (rank_sorted_lookup _ _ _ Hs Hj). by rewrite Hf.
Qed.

(** C1 (amended). For a strictly increasing sample mask within [[0, n)]
    and a denoised series with one volume per mask entry, the padded
    series has [n] volumes, reading it at the mask indices, in order,
    gives back the denoised series, and every volume at an index outside
    the mask is all-missing; when no denoised volume is itself
    all-missing, volume [i] of the padded series is all-missing exactly
    when [i] is outside the mask. *)
Theorem gap_reconstruction_round_trip
    (denoise_img : image) (vol_indx : list Z) (nVols : nat) :
  StronglySorted Z.lt vol_indx →
  Forall (λ v, 0 ≤ v < Z.of_nat nVols) vol_indx →
  length (frames denoise_img) = length vol_indx →
  ∃ padded,
    pad_denoised denoise_img vol_indx nVols = Ok padded ∧
    length (frames padded) = nVols ∧
    (λ v, frames padded !! Z.to_nat v) <$> vol_indx
    = Some <$> frames denoise_img ∧
    (∀ (i : nat) f, frames padded !! i = Some f →
       Z.of_nat i ∉ vol_indx → all_missing f = true) ∧
    (Forall (λ f, all_missing f = false) (frames denoise_img) →
     ∀ (i : nat) f, frames padded !! i = Some f →
       (all_missing f = true ↔ Z.of_nat i ∉ vol_indx)).
Proof.
  intros Hs Hrange Hlen.
  destruct (pad_denoised_frames denoise_img vol_indx nVols Hs Hrange Hlen)
    as (padded & Hpad & _ & Hn & Hout & Hin).
  assert (∀ (i : nat) f, frames padded !! i = Some f →
            Z.of_nat i ∉ vol_indx → all_missing f = true) as Hgap.
  { intros i f Hi Hnin.
    assert (i < nVols)%nat as Hlt by (rewrite <- Hn; by eapply lookup_lt_Some).
    rewrite (Hout i Hlt Hnin) in Hi.
    injection Hi as <-. apply all_missing_nan_vol. }
  exists padded. split; [done|]. split; [done|]. split; [|split; [done|]].
  - apply list_eq. intros j. rewrite !list_lookup_fmap.
    destruct (vol_indx !! j) as [v|] eqn:Hj; cbn.
    + destruct (Hin j v Hj) as [-> [f ->]]. done.
    + rewrite lookup_ge_None_2; [done|].
      rewrite Hlen. by apply lookup_ge_None_1.
  - intros Hfull i f Hi. rewrite Forall_forall in Hfull.
    split; [|by apply Hgap].
    intros Hmiss Hmem.
    apply list_elem_of_lookup in Hmem as [j Hj].
    destruct (Hin j _ Hj) as [Heq _].
    rewrite Nat2Z.id, Hi in Heq. symmetry in Heq.
    apply list_elem_of_lookup_2, Hfull in Heq. congruence.
Qed.

Lemma gap_reconstruction_round_trip_witness :
  ∃ padded,
    pad_denoised {| spatial := [1%nat];
                    frames := [[pd.Num 1%Q]; [pd.Num 2%Q]] |} [0; 2] 3
    = Ok padded ∧
    length (frames padded) = 3%nat ∧
    (λ v, frames padded !! Z.to_nat v) <$> [0; 2]
    = Some <$> [[pd.Num 1%Q]; [pd.Num 2%Q]] ∧
    (∀ (i : nat) f, frames padded !! i = Some f →
       Z.of_nat i ∉ [0; 2] → all_missing f = true) ∧
    (Forall (λ f, all_missing f = false) [[pd.Num 1%Q]; [pd.Num 2%Q]] →
     ∀ (i : nat) f, frames padded !! i = Some f →
       (all_missing f = true ↔ Z.of_nat i ∉ [0; 2])).
Proof.
  apply (gap_reconstruction_round_trip
           {| spatial := [1%nat]; frames := [[pd.Num 1%Q]; [pd.Num 2%Q]] |}
           [0; 2] 3).
  - repeat constructor; lia.
  - repeat constructor; lia.
  - reflexivity.
Defined.

(** The scenario of the specification: 116 post-drop volumes, outliers 5,
    6 and 40. *)
Example padded_scenario :
  ∃ vol_indx,
    retained_volumes ["FD"; "art"] 116 [5; 6; 40] = Ok vol_indx ∧
    length vol_indx = 113%nat ∧
    (frames <$> pad_denoised
       {| spatial := []; frames := replicate 113 [pd.Num 1%Q] |} vol_indx 116)
    = Ok (replicate 5 [pd.Num 1%Q] ++ [[pd.NaN]; [pd.NaN]]
          ++ replicate 33 [pd.Num 1%Q] ++ [[pd.NaN]]
          ++ replicate 75 [pd.Num 1%Q]).
Proof. eexists. split; [vm_compute; reflexivity|]. by vm_compute. Qed.

(** Without the proviso on the denoised volumes the equivalence fails: a
    denoised volume that is all-missing on its own is copied to a mask
    index, where the padded series then shows an all-missing volume. *)
Lemma gap_round_trip_all_missing_frame :
  ¬ (∀ (denoise_img : image) (vol_indx : list Z) (nVols : nat),
       StronglySorted Z.lt vol_indx →
       Forall (λ v, 0 ≤ v < Z.of_nat nVols) vol_indx →
       length (frames denoise_img) = length vol_indx →
       ∃ padded,
         pad_denoised denoise_img vol_indx nVols = Ok padded ∧
         length (frames padded) = nVols ∧
         (∀ (i : nat) f, frames padded !! i = Some f →
            (all_missing f = true ↔ Z.of_nat i ∉ vol_indx)) ∧
         (λ v, frames padded !! Z.to_nat v) <$> vol_indx
         = Some <$> frames denoise_img).
Proof.
  intros H.
  destruct (H {| spatial := [1%nat]; frames := [[pd.NaN]] |} [0] 1%nat)
    as (padded & Hpad & _ & Hiff & _).
  - repeat constructor.
  - repeat constructor; lia.
  - reflexivity.
  - vm_compute in Hpad. injection Hpad as <-.
    destruct (Hiff 0%nat [pd.NaN] eq_refl) as [Hmiss _].
    apply Hmiss; [reflexivity|]. left.
Qed.

(** ** Filter modes *)

Section filter_modes.

Context (imgs : image + list image) (mni_mask : image).
Context (motion_params : list (list pd.cell)) (vol_indx : list Z).
Context (TR : Q) (hpf : Z) (detrend standardize : string).

(** C3 (amended). Only [butterworth] and [cosine] select a filter. Every
    other mode string, [none] and unrecognised ones alike, leads to the
    same cleaning call, whose keyword arguments hold the sample mask
    alone; the mode string never makes the request fail. *)
Theorem filter_mode_fallback (clean_img : clean_call → result image)
    (filter_opt : string) :
  filter_opt ≠ "butterworth" →
  filter_opt ≠ "cosine" →
  clean_request imgs mni_mask motion_params vol_indx TR hpf
    filter_opt detrend standardize
  = clean_request imgs mni_mask motion_params vol_indx TR hpf
      "none" detrend standardize ∧
  (∀ call,
     clean_request imgs mni_mask motion_params vol_indx TR hpf
       filter_opt detrend standardize = Ok call →
     call_kwargs call = [("clean__sample_mask", Indices vol_indx)]) ∧
  (imgs ≠ inr [] → hpf ≠ 0 →
   is_Ok (clean_request imgs mni_mask motion_params vol_indx TR hpf
            filter_opt detrend standardize)) ∧
  denoise_data clean_img imgs mni_mask motion_params vol_indx TR hpf
    filter_opt detrend standardize
  = denoise_data clean_img imgs mni_mask motion_params vol_indx TR hpf
      "none" detrend standardize.
Proof.
  intros Hb Hc.
  assert (∀ hz, kwargs_opts filter_opt vol_indx TR hz
                = [("clean__sample_mask", Indices vol_indx)]) as Hk.
  { intros hz. unfold kwargs_opts. by rewrite !bool_decide_eq_false_2. }
  assert (clean_request imgs mni_mask motion_params vol_indx TR hpf
            filter_opt detrend standardize
          = clean_request imgs mni_mask motion_params vol_indx TR hpf
              "none" detrend standardize) as Heq.
  { unfold clean_request.
    destruct imgs as [img|[|img l]]; simpl; try done;
      destruct (bool_decide (hpf = 0)); simpl; try done; by rewrite Hk. }
  split; [done|]. split; [|split].
  - unfold clean_request. intros call Hcall.
    destruct imgs as [img|[|img l]]; simpl in Hcall; try done;
      destruct (bool_decide (hpf = 0)); simpl in Hcall; try done;
      injection Hcall as <-; apply Hk.
  - intros Himgs Hhpf. unfold clean_request.
    destruct imgs as [img|[|img l]]; try done; simpl;
      rewrite (bool_decide_eq_false_2 (hpf = 0)) by done; by eexists.
  - unfold denoise_data. by rewrite Heq.
Qed.

End filter_modes.

Lemma filter_mode_fallback_witness :
  is_Ok (clean_request (inl demo.img) demo.img [] [0] 2%Q 100
           "highpass" "yes" "no") ∧
  denoise_data (λ call, Ok (call_imgs call)) (inl demo.img) demo.img [] [0]
    2%Q 100 "highpass" "yes" "no"
  = denoise_data (λ call, Ok (call_imgs call)) (inl demo.img) demo.img [] [0]
      2%Q 100 "none" "yes" "no".
Proof.
  destruct (filter_mode_fallback (inl demo.img) demo.img [] [0] 2%Q 100
              "yes" "no" (λ call, Ok (call_imgs call)) "highpass")
    as (_ & _ & Hok & Hsame).
  - discriminate.
  - discriminate.
  - split; [apply Hok; [discriminate|lia]|exact Hsame].
Defined.

(** An unrecognised filter mode raises nothing: the request goes to the
    cleaning call exactly as for [none]. *)
Lemma unrecognized_filter_mode_proceeds :
  ("bandstop" ∉ ["none"; "cosine"; "butterworth"]) ∧
  clean_request (inl demo.img) demo.img [] [0] 2%Q 100 "bandstop" "yes" "no"
  = Ok {| call_imgs := demo.img; call_mask_img := demo.img;
          call_confounds := [];
          call_detrend := true; call_standardize := None;
          call_kwargs := [("clean__sample_mask", Indices [0])] |} ∧
  denoise_data (λ call, Ok (call_imgs call)) (inl demo.img) demo.img [] [0]
    2%Q 100 "bandstop" "yes" "no"
  = Ok (demo.img, demo.img).
Proof. split; [by_compute|]. split; reflexivity. Qed.

(** ** Missing values in the regressor columns *)

(** C7 (amended). The two motion columns, [framewise_displacement] and
    [std_dvars], have every missing value replaced by zero and no other
    entry touched; every other column is passed on as it is, missing
    values included, and the builder raises no error for them. *)
Theorem missing_value_policy
    (confounds : pd.DataFrame) (dropvols : Z) (regressor : string)
    (col : list pd.cell) :
  pd.getitem confounds regressor = Ok col →
  (regressor = "framewise_displacement" ∨ regressor = "std_dvars" →
   ∃ s, regressor_series confounds dropvols regressor = Ok s ∧
        s = pd.iloc_from dropvols (pd.fillna 0 col) ∧
        Forall (λ c, pd.isna c = false) s ∧
        ∀ i, pd.fillna 0 col !! i
             = (λ c, if pd.isna c then pd.Num 0 else c) <$> col !! i) ∧
  (regressor ≠ "framewise_displacement" → regressor ≠ "std_dvars" →
   regressor_series confounds dropvols regressor
   = Ok (pd.iloc_from dropvols col)).
Proof.
  intros Hcol. split.
  - intros Hkind. exists (pd.iloc_from dropvols (pd.fillna 0 col)).
    split; [|split; [done|split]].
    + unfold regressor_series. rewrite Hcol.
      destruct Hkind as [-> | ->]; reflexivity.
    + unfold pd.iloc_from. apply Forall_drop. unfold pd.fillna.
      apply Forall_fmap, Forall_true. by intros [].
    + intros i. unfold pd.fillna. rewrite list_lookup_fmap.
      by destruct (col !! i) as [[]|].
  - intros Hfd Hdv. unfold regressor_series.
    rewrite !bool_decide_eq_false_2 by done. by rewrite Hcol.
Qed.

Lemma missing_value_policy_witness :
  regressor_series demo.confounds 0 "framewise_displacement"
  = Ok [pd.Num 0; pd.Num (1 # 2); pd.Num (1 # 4)] ∧
  regressor_series demo.confounds 0 "a_comp_cor_00"
  = Ok [pd.Num 3; pd.NaN; pd.Num 4].
Proof.
  split.
  - destruct (missing_value_policy demo.confounds 0 "framewise_displacement"
                [pd.NaN; pd.Num (1 # 2); pd.Num (1 # 4)] eq_refl)
      as [Hfill _].
    destruct Hfill as (s & -> & -> & _); [by left|reflexivity].
  - destruct (missing_value_policy demo.confounds 0 "a_comp_cor_00"
                [pd.Num 3; pd.NaN; pd.Num 4] eq_refl) as [_ Hpass].
    apply Hpass; discriminate.
Defined.

(** A missing value in a column of another kind is not an error of the
    builder: the run succeeds and the matrix it returns and persists has
    the missing value in it. *)
Lemma missing_component_value_tolerated :
  pd.getitem demo.confounds "a_comp_cor_00"
  = Ok [pd.Num 3; pd.NaN; pd.Num 4] ∧
  ∃ fs' out,
    demo.run demo.fs ["aCompCor"] = Ok (fs', out) ∧
    motion_params out !! 1%nat
    = Some [pd.NaN; pd.Num 5; pd.Num 6; pd.Num 7; pd.Num 8].
Proof.
  split; [reflexivity|]. eexists _, _.
  split; [vm_compute; reflexivity|reflexivity].
Qed.

(** ** Regressor aliases *)

Lemma dict_get_None {V} (d : list (string * V)) (k : string) :
  k ∉ d.*1 → dict_get d k = None.
Proof.
  induction d as [|[k' v] d IH]; [done|].
  rewrite fmap_cons. intros [Hne Hnin]%not_elem_of_cons. simpl.
  rewrite bool_decide_eq_false_2 by (simpl in Hne; congruence). by apply IH.
Qed.

Lemma regressor_list_unknown (l1 l2 : list string) (r : string) :
  r ∉ regressor_dict.*1 →
  regressor_list (l1 ++ r :: l2) = regressor_list (l1 ++ l2).
Proof.
  intros Hr%dict_get_None. unfold regressor_list.
  rewrite !foldl_app. cbn [foldl]. by rewrite Hr.
Qed.

Lemma scrub_requested_unknown (l1 l2 : list string) (r : string) :
  r ≠ "art" →
  scrub_requested (l1 ++ r :: l2) = scrub_requested (l1 ++ l2).
Proof.
  intros Hr. unfold scrub_requested. apply bool_decide_ext.
  rewrite !elem_of_app, elem_of_cons.
  split; [intros [?|[?|?]]|intros [?|?]]; auto. by destruct Hr.
Qed.


(** ** The regressor builder as a whole *)

Section builder.

Context (read_table : string → result pd.DataFrame).
Context (float_repr : Q → string).

Context (sub confound_file art_file : string).
Context (regressor_opts regressor_names : list string).
Context (dropvols run_id : Z) (outDir : string).

#[local] Abbreviation run_on fs :=
  (create_motion_reg read_table float_repr fs sub confound_file art_file
     regressor_opts regressor_names dropvols run_id outDir).

(** A run succeeds exactly when its four steps do. *)
Lemma create_motion_reg_Ok fs fs' out :
  run_on fs = Ok (fs', out)
  ↔ ∃ text confounds regressors,
      fs !! confound_file = Some text ∧
      read_table text = Ok confounds ∧
      read_outliers fs art_file = Ok (outliers out) ∧
      regressors_loop confounds dropvols regressor_names [] = Ok regressors ∧
      motion_params out = pd.frame_of_series regressors ∧
      retained_volumes regressor_opts (pd.shape0 (motion_params out))
        (outliers out) = Ok (vol_indx out) ∧
      fs' = persist float_repr fs outDir sub run_id out.
Proof.
  unfold create_motion_reg, persist. split.
  - intros Hrun.
    destruct (fs !! confound_file) as [text|] eqn:Htext; [|done].
    destruct (read_table text) as [confounds|] eqn:Htab; [|done].
    cbn in Hrun.
    destruct (read_outliers fs art_file) as [o|] eqn:Ho; [|done].
    cbn in Hrun.
    destruct (regressors_loop _ _ _ _) as [regs|] eqn:Hregs; [|done].
    cbn in Hrun.
    destruct (retained_volumes _ _ _) as [vi|] eqn:Hvi; [|done].
    cbn in Hrun. injection Hrun as <- <-.
    by exists text, confounds, regs.
  - intros (text & confounds & regs & -> & -> & Ho & Hregs & Hmp & Hvi & ->).
    cbn. rewrite Ho. cbn. rewrite Hregs. cbn. rewrite <- Hmp, Hvi. cbn.
    by destruct out.
Qed.

Lemma retained_volumes_length opts n o vi :
  retained_volumes opts n o = Ok vi → (length vi ≤ n)%nat.
Proof.
  unfold retained_volumes.
  destruct (scrub_requested opts);
    [case_bool_decide|]; try (intros [= <-]; by rewrite length_arange).
  unfold np.delete. destruct (forallb _ o); [|done]. intros [= <-].
  etrans; [apply length_select|]. by rewrite length_arange.
Qed.

Lemma read_outliers_agree (fs1 fs2 : gmap string string) :
  fs1 !! art_file = fs2 !! art_file →
  read_outliers fs1 art_file = read_outliers fs2 art_file.
Proof.
  intros H. unfold read_outliers, pd.read_int_column. by rewrite H.
Qed.

(** The outcome of a run is fixed by the texts of its two input files;
    the rest of the file system only passes through. *)
Lemma run_on_inputs fs1 fs2 :
  fs1 !! confound_file = fs2 !! confound_file →
  fs1 !! art_file = fs2 !! art_file →
  match run_on fs1, run_on fs2 with
  | Ok (fs1', out1), Ok (fs2', out2) =>
      out1 = out2 ∧
      fs1' = persist float_repr fs1 outDir sub run_id out1 ∧
      fs2' = persist float_repr fs2 outDir sub run_id out1
  | Raise e1, Raise e2 => e1 = e2
  | _, _ => False
  end.
Proof.
  intros Hc Ha. unfold create_motion_reg.
  rewrite Hc, (read_outliers_agree _ _ Ha).
  destruct (fs2 !! confound_file) as [text|]; [|done].
  destruct (read_table text) as [confounds|]; [|done]. cbn.
  destruct (read_outliers fs2 art_file) as [o|]; [|done]. cbn.
  destruct (regressors_loop _ _ _ _) as [regs|]; [|done]. cbn.
  destruct (retained_volumes _ _ _) as [vi|]; [|done]. cbn.
  done.
Qed.

Lemma persist_motion_file fs out :
  is_Some (persist float_repr fs outDir sub run_id out
             !! motion_file outDir sub run_id) ∧
  ∀ fs0, persist float_repr fs outDir sub run_id out
           !! motion_file outDir sub run_id
         = persist float_repr fs0 outDir sub run_id out
             !! motion_file outDir sub run_id.
Proof.
  unfold persist. split; [|intros fs0];
    rewrite !lookup_insert; repeat case_decide; done.
Qed.

Lemma persist_scrub_file fs out :
  persist float_repr fs outDir sub run_id out !! scrub_file outDir sub run_id
  = Some (pd.to_csv pretty ((λ v, [v]) <$> vol_indx out)).
Proof. unfold persist. by rewrite lookup_insert_eq. Qed.

Lemma persist_idemp fs out :
  persist float_repr (persist float_repr fs outDir sub run_id out)
    outDir sub run_id out
  = persist float_repr fs outDir sub run_id out.
Proof.
  unfold persist. apply map_eq. intros k.
  rewrite !lookup_insert. repeat case_decide; done.
Qed.

(** C9. The regressor matrix, the sample mask and the outlier list
    returned by the builder, and the texts of the two files it writes,
    are determined by the texts of the confound file and of the outlier
    file together with the options: two runs that read the same two texts
    end alike, whatever else the file system holds. *)
Theorem builder_deterministic fs1 fs2 :
  fs1 !! confound_file = fs2 !! confound_file →
  fs1 !! art_file = fs2 !! art_file →
  match run_on fs1, run_on fs2 with
  | Ok (fs1', out1), Ok (fs2', out2) =>
      out1 = out2 ∧
      is_Some (fs1' !! motion_file outDir sub run_id) ∧
      is_Some (fs1' !! scrub_file outDir sub run_id) ∧
      fs1' !! motion_file outDir sub run_id
      = fs2' !! motion_file outDir sub run_id ∧
      fs1' !! scrub_file outDir sub run_id
      = fs2' !! scrub_file outDir sub run_id
  | Raise e1, Raise e2 => e1 = e2
  | _, _ => False
  end.
Proof.
  intros Hc Ha. pose proof (run_on_inputs fs1 fs2 Hc Ha) as H.
  destruct (run_on fs1) as [[fs1' out1]|e1], (run_on fs2) as [[fs2' out2]|e2];
    try done.
  destruct H as (<- & -> & ->).
  split; [done|]. split; [apply persist_motion_file|].
  rewrite !persist_scrub_file. split; [by eexists|].
  split; [apply persist_motion_file|done].
Qed.

(** Running the builder again on what a first run left behind changes
    nothing, as long as the first run did not write over its own inputs. *)
Lemma builder_rerun fs fs' out :
  run_on fs = Ok (fs', out) →
  fs' !! confound_file = fs !! confound_file →
  fs' !! art_file = fs !! art_file →
  run_on fs' = Ok (fs', out).
Proof.
  intros Hrun Hc Ha. pose proof (run_on_inputs fs' fs Hc Ha) as H.
  rewrite Hrun in H.
  destruct (run_on fs') as [[fs'' out']|e]; [|done].
  destruct H as (-> & -> & ->). by rewrite persist_idemp.
Qed.

End builder.

Section alias_resolution.

Context (read_table : string → result pd.DataFrame).
Context (float_repr : Q → string).

(** C6 (amended). A requested kind outside the alias table is dropped
    without any error: it adds no column name, and, unless it is the
    scrub option [art], the whole run of the builder is the same as
    without it. *)
Theorem unknown_alias_ignored
    (l1 l2 : list string) (r : string) (fs : gmap string string)
    (sub confound_file art_file : string) (dropvols run_id : Z)
    (outDir : string) :
  r ∉ regressor_dict.*1 →
  regressor_names (l1 ++ r :: l2) = regressor_names (l1 ++ l2) ∧
  (r ≠ "art" →
   regressorinfo read_table float_repr fs sub confound_file art_file
     (l1 ++ r :: l2) dropvols run_id outDir
   = regressorinfo read_table float_repr fs sub confound_file art_file
       (l1 ++ l2) dropvols run_id outDir).
Proof.
  intros Hr.
  assert (regressor_names (l1 ++ r :: l2) = regressor_names (l1 ++ l2))
    as Hnames.
  { unfold regressor_names. by rewrite regressor_list_unknown. }
  split; [done|]. intros Hart.
  unfold regressorinfo, create_motion_reg, retained_volumes.
  by rewrite Hnames, scrub_requested_unknown.
Qed.

End alias_resolution.

Lemma unknown_alias_ignored_witness :
  regressor_names ["FD"; "motion24"; "DVARS"]
  = ["framewise_displacement"; "std_dvars"] ∧
  demo.run demo.fs ["FD"; "motion24"; "DVARS"]
  = demo.run demo.fs ["FD"; "DVARS"].
Proof.
  destruct (unknown_alias_ignored demo.read_table demo.float_repr
              ["FD"] ["DVARS"] "motion24" demo.fs "01" "conf.tsv" "art.txt"
              0 1 "/out") as [Hnames Hrun].
  - by_compute.
  - split; [exact Hnames|]. apply Hrun. discriminate.
Defined.

(** An alias outside the table raises nothing; the run goes through with
    the columns of the recognised kinds. *)
Lemma unknown_alias_not_fatal :
  ("motion24" ∉ regressor_dict.*1) ∧
  regressor_names ["motion24"; "FD"] = ["framewise_displacement"] ∧
  is_Ok (demo.run demo.fs ["motion24"; "FD"]).
Proof.
  split; [by_compute|]. split; [reflexivity|].
  eexists. vm_compute. reflexivity.
Qed.

Lemma builder_deterministic_witness :
  match demo.run demo.fs ["FD"; "art"],
        demo.run demo.fs_other ["FD"; "art"] with
  | Ok (fs1', out1), Ok (fs2', out2) =>
      out1 = out2 ∧
      is_Some (fs1' !! motion_file "/out" "01" 1) ∧
      is_Some (fs1' !! scrub_file "/out" "01" 1) ∧
      fs1' !! motion_file "/out" "01" 1 = fs2' !! motion_file "/out" "01" 1 ∧
      fs1' !! scrub_file "/out" "01" 1 = fs2' !! scrub_file "/out" "01" 1
  | Raise e1, Raise e2 => e1 = e2
  | _, _ => False
  end.
Proof.
  apply (builder_deterministic demo.read_table demo.float_repr
           "01" "conf.tsv" "art.txt" ["FD"; "art"]
           (regressor_names ["FD"; "art"]) 0 1 "/out" demo.fs demo.fs_other).
  - vm_compute. reflexivity.
  - vm_compute. reflexivity.
Defined.

(** The files of the demo run, as text. *)
Example demo_files :
  ∃ fs' out,
    demo.run demo.fs ["FD"; "aCompCor"; "art"] = Ok (fs', out) ∧
    fs' !! "/out/regressors/sub-01_run-01_confounds.txt"
    = Some (demo.line (demo.tabbed ["0/1"; "3/1"; "5/1"; "6/1"; "7/1"; "8/1"])
            +:+ demo.line (demo.tabbed ["1/2"; ""; "5/1"; "6/1"; "7/1"; "8/1"])
            +:+ demo.line (demo.tabbed ["1/4"; "4/1"; "5/1"; "6/1"; "7/1"; "8/1"])) ∧
    fs' !! "/out/regressors/sub-01_run-01_retained_volumes.txt"
    = Some (demo.line "0" +:+ demo.line "2").
Proof.
  eexists _, _. split; [vm_compute; reflexivity|].
  split; vm_compute; reflexivity.
Qed.

(** * Further properties of the pipeline *)

(** ** Deletion with indices counted from the end *)

Lemma delete_arange_positions n (obj : list Z) :
  Forall (λ i, - Z.of_nat n ≤ i < Z.of_nat n) obj →
  np.delete (np.arange n) obj
  = Ok (filter (λ v, v ∉ (λ i, Z.of_nat (np.position (Z.of_nat n) i)) <$> obj)
          (np.arange n)).
Proof.
  intros Hobj. unfold np.delete. rewrite length_arange.
  assert (forallb (np.in_bounds (Z.of_nat n)) obj = true) as ->.
  { apply Is_true_true, forallb_True. eapply Forall_impl; [exact Hobj|].
    intros i [Hlo Hhi]. unfold np.in_bounds.
    rewrite !bool_decide_eq_true_2 by lia. done. }
  f_equal. rewrite keep_mask_seq, arange_seq, select_fmap_seq.
  apply filter_fmap_seq. intros p. rewrite bool_decide_eq_true.
  rewrite !list_elem_of_fmap.
  split; intros Hp (i & Hi & Hin); apply Hp; exists i; (split; [lia|done]).
Qed.

Lemma delete_below_bounds {A} (arr : list A) (obj : list Z) :
  Exists (λ i, i < - Z.of_nat (length arr)) obj →
  np.delete arr obj = Raise IndexError.
Proof.
  intros (i & Hi & Hlt)%Exists_exists. unfold np.delete.
  destruct (forallb _ obj) eqn:E; [|done].
  apply Is_true_true, forallb_True in E. rewrite Forall_forall in E.
  specialize (E i Hi). unfold np.in_bounds in E.
  apply Is_true_true, andb_true_iff in E as [E _].
  apply bool_decide_eq_true in E. lia.
Qed.

(** X1. A negative outlier index is not rejected: within [[-n, 0)] it
    counts from the end of the retained range, so [-1] scrubs the last
    volume; only an index below [-n] (or at least [n]) raises. *)
Theorem scrub_negative_index
    (regressor_opts : list string) (n : nat) (outliers : list Z) :
  "art" ∈ regressor_opts →
  outliers ≠ [] →
  (Forall (λ i, - Z.of_nat n ≤ i < Z.of_nat n) outliers →
   retained_volumes regressor_opts n outliers
   = Ok (filter
           (λ v, v ∉ (λ i, if bool_decide (i < 0) then i + Z.of_nat n else i)
                       <$> outliers)
           (np.arange n))) ∧
  (Exists (λ i, i < - Z.of_nat n) outliers →
   retained_volumes regressor_opts n outliers = Raise IndexError).
Proof.
  intros Hart Hne.
  assert (retained_volumes regressor_opts n outliers
          = np.delete (np.arange n) outliers) as ->.
  { unfold retained_volumes, scrub_requested.
    rewrite bool_decide_eq_true_2 by done.
    rewrite bool_decide_eq_true_2; [done|]. by destruct outliers. }
  split.
  - intros Hobj. rewrite delete_arange_positions by done. f_equal.
    apply list_filter_iff. intros v.
    assert ((λ i, Z.of_nat (np.position (Z.of_nat n) i)) <$> outliers
            = (λ i, if bool_decide (i < 0) then i + Z.of_nat n else i)
                <$> outliers) as ->; [|done].
    apply Forall_fmap_ext. eapply Forall_impl; [exact Hobj|].
    intros i [Hlo Hhi]. unfold np.position.
    case_bool_decide; lia.
  - intros Hex. apply delete_below_bounds. by rewrite length_arange.
Qed.

Lemma scrub_negative_index_witness :
  retained_volumes ["art"] 4 [-1; 1] = Ok [0; 2] ∧
  retained_volumes ["art"] 4 [-5] = Raise IndexError.
Proof.
  destruct (scrub_negative_index ["art"] 4 [-1; 1]) as [Hwrap _];
    [by_compute|done|].
  destruct (scrub_negative_index ["art"] 4 [-5]) as [_ Hlow];
    [by_compute|done|].
  split.
  - rewrite Hwrap; [reflexivity|]. repeat constructor; lia.
  - apply Hlow. apply Exists_cons_hd. lia.
Defined.

(** Every mask the builder can return is [[0, n)] with some values
    filtered out. *)
Lemma retained_volumes_filter opts n o vi :
  retained_volumes opts n o = Ok vi →
  ∃ L : list Z, vi = filter (λ v, v ∉ L) (np.arange n).
Proof.
  unfold retained_volumes. intros H.
  assert (Ok (np.arange n) = Ok vi → ∃ L : list Z,
            vi = filter (λ v, v ∉ L) (np.arange n)) as Hfull.
  { intros [= <-]. exists []. symmetry. apply filter_all.
    intros v. apply not_elem_of_nil. }
  destruct (scrub_requested opts); [|by apply Hfull].
  case_bool_decide; [|by apply Hfull].
  unfold np.delete in H. rewrite length_arange in H.
  destruct (forallb _ o) eqn:E; [|done].
  assert (Forall (λ i, - Z.of_nat n ≤ i < Z.of_nat n) o) as Hobj.
  { apply Is_true_true, forallb_True in E. eapply Forall_impl; [exact E|].
    intros i Hi. unfold np.in_bounds in Hi.
    apply Is_true_true, andb_true_iff in Hi as [H1 H2].
    apply bool_decide_eq_true in H1. apply bool_decide_eq_true in H2. lia. }
  pose proof (delete_arange_positions n o Hobj) as Hd.
  unfold np.delete in Hd. rewrite length_arange, E in Hd.
  rewrite Hd in H. injection H as <-. by eexists.
Qed.

(** X2. Whatever the options and the outlier list, a sample mask that is
    returned is strictly increasing and lies within [[0, n)]. *)
Theorem sample_mask_invariant
    (regressor_opts : list string) (n : nat) (outliers vol_indx : list Z) :
  retained_volumes regressor_opts n outliers = Ok vol_indx →
  StronglySorted Z.lt vol_indx ∧
  Forall (λ v, 0 ≤ v < Z.of_nat n) vol_indx.
Proof.
  intros [L ->]%retained_volumes_filter. split.
  - apply StronglySorted_filter, StronglySorted_seqZ.
  - apply Forall_forall. intros v [_ Hv%elem_of_arange]%list_elem_of_filter.
    done.
Qed.

Lemma sample_mask_invariant_witness :
  StronglySorted Z.lt [0; 2] ∧ Forall (λ v, 0 ≤ v < Z.of_nat 4) [0; 2].
Proof.
  apply (sample_mask_invariant ["art"] 4 [-1; 1; 3] [0; 2]). reflexivity.
Defined.

(** ** The padding loop on arbitrary masks *)

Lemma pad_loop_Forall (Q : list pd.cell → Prop) denoise_img nan_img mask
    vols d pad_imgs r :
  pad_loop denoise_img nan_img mask vols d pad_imgs = Ok r →
  Q nan_img → Forall Q (frames denoise_img) → Forall Q pad_imgs →
  Forall Q r ∧ length r = (length pad_imgs + length vols)%nat.
Proof.
  intros Hrun Hnan Hframes. revert d pad_imgs Hrun.
  induction vols as [|vol vols IH]; intros d pad_imgs Hrun Hacc.
  { injection Hrun as <-. split; [done|simpl; lia]. }
  cbn [pad_loop] in Hrun. destruct (np.contains mask vol).
  - unfold index_img in Hrun.
    destruct (frames denoise_img !! d) as [f|] eqn:Hf; [|done].
    cbn in Hrun. apply IH in Hrun as [HQ Hlen].
    + split; [done|]. rewrite Hlen, length_app. simpl. lia.
    + apply Forall_app. split; [done|]. constructor; [|done].
      rewrite Forall_forall in Hframes.
      by eapply Hframes, list_elem_of_lookup_2.
  - apply IH in Hrun as [HQ Hlen].
    + split; [done|]. rewrite Hlen, length_app. simpl. lia.
    + apply Forall_app. split; [done|]. by constructor.
Qed.

(** X3. For any mask at all, valid or not, a padded series that is
    returned has exactly [nVols] volumes and the spatial shape of the
    denoised series, and when every denoised volume has the voxel count of
    that shape, so has every padded volume. *)
Theorem padded_series_shape
    (denoise_img padded : image) (vol_indx : list Z) (nVols : nat) :
  pad_denoised denoise_img vol_indx nVols = Ok padded →
  length (frames padded) = nVols ∧
  spatial padded = spatial denoise_img ∧
  (Forall (λ f, length f = foldr Nat.mul 1%nat (spatial denoise_img))
     (frames denoise_img) →
   Forall (λ f, length f = foldr Nat.mul 1%nat (spatial padded))
     (frames padded)).
Proof.
  unfold pad_denoised. intros Hrun.
  destruct (pad_loop _ _ _ _ _ _) as [r|] eqn:Hloop; [|done].
  injection Hrun as <-. cbn [frames spatial].
  split; [|split; [done|]].
  - eapply (pad_loop_Forall (λ _, True)) in Hloop as [_ Hlen];
      [|done|by apply Forall_true|done].
    rewrite Hlen, length_arange. done.
  - intros Hshape.
    eapply (pad_loop_Forall
              (λ f, length f = foldr Nat.mul 1%nat (spatial denoise_img)))
      in Hloop as [HQ _]; [done| |done|done].
    unfold nan_vol. apply length_replicate.
Qed.

Lemma padded_series_shape_witness :
  length [[pd.Num 1%Q]; [pd.NaN]; [pd.Num 2%Q]] = 3%nat ∧
  [1%nat] = [1%nat] ∧
  (Forall (λ f : list pd.cell, length f = foldr Nat.mul 1%nat [1%nat])
     [[pd.Num 1%Q]; [pd.Num 2%Q]] →
   Forall (λ f : list pd.cell, length f = foldr Nat.mul 1%nat [1%nat])
     [[pd.Num 1%Q]; [pd.NaN]; [pd.Num 2%Q]]).
Proof.
  apply (padded_series_shape
           {| spatial := [1%nat]; frames := [[pd.Num 1%Q]; [pd.Num 2%Q]] |}
           {| spatial := [1%nat];
              frames := [[pd.Num 1%Q]; [pd.NaN]; [pd.Num 2%Q]] |}
           [0; 2] 3).
  reflexivity.
Defined.

(** The loop stops at the first mask index for which the denoised series
    has no volume left. *)
Lemma pad_loop_short denoise_img nan_img mask (k : nat) :
  NoDup mask →
  ∀ s d pad_imgs,
    d = rank mask s →
    (∃ v, v ∈ mask ∧ s ≤ v < s + Z.of_nat k ∧
          (length (frames denoise_img) ≤ rank mask v)%nat) →
    pad_loop denoise_img nan_img mask (seqZ s (Z.of_nat k)) d pad_imgs
    = Raise IndexError.
Proof.
  intros Hnd. induction k as [|k IH]; intros s d pad_imgs -> (v & Hv & Hr & Hlen).
  { lia. }
  rewrite seqZ_cons by lia.
  replace (Z.pred (Z.of_nat (S k))) with (Z.of_nat k) by lia.
  cbn [pad_loop]. destruct (np.contains mask s) eqn:Hc.
  - apply contains_elem_of in Hc as Hin. unfold index_img.
    destruct (frames denoise_img !! rank mask s) as [f|] eqn:Hf; [|done].
    cbn [mbind result_bind]. apply lookup_lt_Some in Hf.
    apply IH.
    + rewrite <- Z.add_1_r. symmetry. by apply rank_succ_in.
    + exists v. split; [done|]. split; [|done].
      assert (v ≠ s) by (intros ->; lia). lia.
  - assert (s ∉ mask) as Hnin.
    { intros Hs%contains_elem_of. congruence. }
    apply IH.
    + rewrite <- Z.add_1_r. symmetry. by apply rank_succ_notin.
    + exists v. split; [done|]. split; [|done].
      assert (v ≠ s) by (by intros ->). lia.
Qed.

(** X4. The denoised series must hold a volume for every mask entry:
    with fewer volumes than entries the padding raises [IndexError]; with
    at least as many it succeeds, and the volumes beyond the mask length
    are never read. *)
Theorem padding_needs_enough_volumes
    (denoise_img : image) (vol_indx : list Z) (nVols : nat) :
  StronglySorted Z.lt vol_indx →
  Forall (λ v, 0 ≤ v < Z.of_nat nVols) vol_indx →
  ((length (frames denoise_img) < length vol_indx)%nat →
   pad_denoised denoise_img vol_indx nVols = Raise IndexError) ∧
  ((length vol_indx ≤ length (frames denoise_img))%nat →
   is_Ok (pad_denoised denoise_img vol_indx nVols) ∧
   pad_denoised denoise_img vol_indx nVols
   = pad_denoised
       {| spatial := spatial denoise_img;
          frames := take (length vol_indx) (frames denoise_img) |}
       vol_indx nVols).
Proof.
  intros Hs Hrange. pose proof (StronglySorted_lt_NoDup _ Hs) as Hnd.
  rewrite Forall_forall in Hrange.
  assert (0%nat = rank vol_indx 0) as Hr0.
  { symmetry. apply rank_lower_bound. intros v Hv.
    specialize (Hrange v Hv). lia. }
  split.
  - intros Hshort. unfold pad_denoised, np.arange.
    rewrite (pad_loop_short _ _ _ nVols Hnd); [done|done|].
    destruct (lookup_lt_is_Some_2 vol_indx (length (frames denoise_img)))
      as [v Hv]; [lia|].
    exists v. pose proof (list_elem_of_lookup_2 _ _ _ Hv) as Hin.
    split; [done|]. split; [specialize (Hrange v Hin); lia|].
    by rewrite (rank_sorted_lookup _ _ _ Hs Hv).
  - intros Hlen. unfold pad_denoised, np.arange. cbn [spatial frames].
    rewrite (pad_loop_seqZ _ _ _ nVols Hnd) by done.
    rewrite (pad_loop_seqZ _ _ _ nVols Hnd);
      [|cbn [frames]; rewrite length_take; lia|done].
    split; [by eexists|]. cbn. do 2 f_equal.
    apply list_fmap_ext. intros _ v _. unfold slot. cbn [frames].
    destruct (np.contains vol_indx v) eqn:Hc; [|done].
    apply contains_elem_of, rank_lt_length in Hc.
    by rewrite lookup_take_lt.
Qed.

Lemma padding_needs_enough_volumes_witness :
  pad_denoised {| spatial := [1%nat]; frames := [[pd.Num 1%Q]] |} [0; 2] 3
  = Raise IndexError ∧
  is_Ok (pad_denoised
           {| spatial := [1%nat];
              frames := [[pd.Num 1%Q]; [pd.Num 2%Q]; [pd.Num 3%Q]] |}
           [0; 2] 3).
Proof.
  split.
  - destruct (padding_needs_enough_volumes
                {| spatial := [1%nat]; frames := [[pd.Num 1%Q]] |} [0; 2] 3)
      as [Hshort _].
    + repeat constructor; lia.
    + repeat constructor; lia.
    + apply Hshort. simpl. lia.
  - destruct (padding_needs_enough_volumes
                {| spatial := [1%nat];
                   frames := [[pd.Num 1%Q]; [pd.Num 2%Q]; [pd.Num 3%Q]] |}
                [0; 2] 3) as [_ Hlong].
    + repeat constructor; lia.
    + repeat constructor; lia.
    + apply Hlong. simpl. lia.
Defined.

Lemma StronglySorted_arange n : StronglySorted Z.lt (np.arange n).
Proof. apply StronglySorted_seqZ. Qed.

(** X5. When nothing was scrubbed the padding changes nothing: with the
    full range as mask and one denoised volume per timepoint, the padded
    series is the denoised series. *)
Theorem padding_full_mask (denoise_img : image) (nVols : nat) :
  length (frames denoise_img) = nVols →
  pad_denoised denoise_img (np.arange nVols) nVols = Ok denoise_img.
Proof.
  intros Hlen.
  destruct (pad_denoised_frames denoise_img (np.arange nVols) nVols)
    as (padded & -> & Hsp & Hn & _ & Hin).
  - apply StronglySorted_arange.
  - apply Forall_forall. intros v. by rewrite elem_of_arange.
  - by rewrite length_arange.
  - f_equal. destruct padded as [sp fr], denoise_img as [sp' fr'].
    cbn in *. subst sp. f_equal.
    apply list_eq. intros i.
    destruct (decide (i < nVols)%nat) as [Hi|Hi].
    + destruct (Hin i (Z.of_nat i)) as [Heq _].
      { unfold np.arange. rewrite lookup_seqZ_lt by lia. f_equal. }
      by rewrite Nat2Z.id in Heq.
    + rewrite !lookup_ge_None_2 by lia. done.
Qed.

Lemma padding_full_mask_witness :
  pad_denoised {| spatial := [1%nat]; frames := [[pd.Num 1%Q]; [pd.NaN]] |}
    (np.arange 2) 2
  = Ok {| spatial := [1%nat]; frames := [[pd.Num 1%Q]; [pd.NaN]] |}.
Proof.
  apply (padding_full_mask
           {| spatial := [1%nat]; frames := [[pd.Num 1%Q]; [pd.NaN]] |} 2).
  reflexivity.
Defined.

(** X6. Builder and padding fit together: any sample mask the builder
    returns for [n] rows, with a denoised series of one volume per mask
    entry, is padded back to [n] volumes, the denoised volumes sitting at
    the mask indices in order and the missing volume everywhere else. *)
Theorem builder_mask_pads_back
    (regressor_opts : list string) (n : nat) (outliers vol_indx : list Z)
    (denoise_img : image) :
  retained_volumes regressor_opts n outliers = Ok vol_indx →
  length (frames denoise_img) = length vol_indx →
  ∃ padded,
    pad_denoised denoise_img vol_indx n = Ok padded ∧
    length (frames padded) = n ∧
    (∀ i : nat, (i < n)%nat → Z.of_nat i ∉ vol_indx →
       frames padded !! i = Some (nan_vol (spatial denoise_img))) ∧
    (λ v, frames padded !! Z.to_nat v) <$> vol_indx
    = Some <$> frames denoise_img.
Proof.
  intros [L ->]%retained_volumes_filter Hlen.
  destruct (pad_denoised_frames denoise_img
              (filter (λ v, v ∉ L) (np.arange n)) n)
    as (padded & Hpad & _ & Hn & Hout & Hin); [| |done|].
  - apply StronglySorted_filter, StronglySorted_seqZ.
  - apply Forall_forall. intros v [_ Hv%elem_of_arange]%list_elem_of_filter.
    done.
  - exists padded. split; [done|]. split; [done|]. split; [done|].
    apply list_eq. intros j. rewrite !list_lookup_fmap.
    destruct (filter _ _ !! j) as [v|] eqn:Hj; cbn.
    + destruct (Hin j v Hj) as [-> [f ->]]. done.
    + rewrite lookup_ge_None_2; [done|].
      rewrite Hlen. by apply lookup_ge_None_1.
Qed.

Lemma builder_mask_pads_back_witness :
  ∃ padded,
    pad_denoised {| spatial := [1%nat];
                    frames := [[pd.Num 1%Q]; [pd.Num 2%Q]] |} [0; 2] 3
    = Ok padded ∧
    length (frames padded) = 3%nat ∧
    (∀ i : nat, (i < 3)%nat → Z.of_nat i ∉ [0; 2] →
       frames padded !! i = Some (nan_vol [1%nat])) ∧
    (λ v, frames padded !! Z.to_nat v) <$> [0; 2]
    = Some <$> [[pd.Num 1%Q]; [pd.Num 2%Q]].
Proof.
  apply (builder_mask_pads_back ["art"] 3 [1] [0; 2]
           {| spatial := [1%nat];
              frames := [[pd.Num 1%Q]; [pd.Num 2%Q]] |});
    reflexivity.
Defined.

(** ** [denoise_data] as a whole *)

Section denoising.

Context (clean_img : clean_call → result image).
Context (mni_mask : image) (motion_params : list (list pd.cell)).
Context (vol_indx : list Z) (TR : Q).
Context (filter_opt detrend standardize : string).

(** X7. Failures ahead of the cleaning call, in every filter mode and for
    every cleaning routine: an empty list of images raises [IndexError],
    and otherwise a cutoff period of zero raises [ZeroDivisionError]; a
    non-zero cutoff, negative ones included, is passed on as [1/hpf]. *)
Theorem denoise_data_early_failures (imgs : image + list image) (hpf : Z) :
  (imgs = inr [] →
   denoise_data clean_img imgs mni_mask motion_params vol_indx TR hpf
     filter_opt detrend standardize = Raise IndexError) ∧
  (imgs ≠ inr [] → hpf = 0 →
   denoise_data clean_img imgs mni_mask motion_params vol_indx TR hpf
     filter_opt detrend standardize = Raise ZeroDivisionError) ∧
  (imgs ≠ inr [] → hpf ≠ 0 →
   ∃ call,
     clean_request imgs mni_mask motion_params vol_indx TR hpf
       filter_opt detrend standardize = Ok call ∧
     call_kwargs call
     = kwargs_opts filter_opt vol_indx TR (Qinv (inject_Z hpf)) ∧
     call_confounds call = motion_params ∧
     ("clean__sample_mask", Indices vol_indx) ∈ call_kwargs call).
Proof.
  split; [|split].
  - intros ->. reflexivity.
  - intros Himgs ->. unfold denoise_data, clean_request.
    by destruct imgs as [img|[|img l]].
  - intros Himgs Hhpf. unfold clean_request.
    destruct imgs as [img|[|img l]]; try done; cbn;
      rewrite (bool_decide_eq_false_2 (hpf = 0)) by done; cbn;
      (eexists; split; [done|]; cbn; split; [done|]; split; [done|]);
      unfold kwargs_opts; repeat case_bool_decide; left.
Qed.

(** X8. A run that reaches the cleaning call and gets back one volume per
    mask entry ends well: the denoised series is returned as it came, and
    the padded series built beside it has as many volumes as the input
    series and gives the denoised volumes back at the mask indices. *)
Theorem denoise_data_pads_to_input_length
    (imgs : image + list image) (hpf : Z) (call : clean_call)
    (denoised_data : image) :
  clean_request imgs mni_mask motion_params vol_indx TR hpf
    filter_opt detrend standardize = Ok call →
  clean_img call = Ok denoised_data →
  length (frames denoised_data) = length vol_indx →
  StronglySorted Z.lt vol_indx →
  Forall (λ v, 0 ≤ v < Z.of_nat (length (frames (call_imgs call)))) vol_indx →
  ∃ pad_concat,
    denoise_data clean_img imgs mni_mask motion_params vol_indx TR hpf
      filter_opt detrend standardize = Ok (denoised_data, pad_concat) ∧
    length (frames pad_concat) = length (frames (call_imgs call)) ∧
    spatial pad_concat = spatial denoised_data ∧
    (λ v, frames pad_concat !! Z.to_nat v) <$> vol_indx
    = Some <$> frames denoised_data.
Proof.
  intros Hreq Hclean Hlen Hs Hrange.
  destruct (pad_denoised_frames denoised_data vol_indx
              (length (frames (call_imgs call))) Hs Hrange Hlen)
    as (padded & Hpad & Hsp & Hn & _ & Hin).
  exists padded. unfold denoise_data. rewrite Hreq. cbn.
  rewrite Hclean. cbn. rewrite Hpad. cbn.
  split; [done|]. split; [done|]. split; [done|].
  apply list_eq. intros j. rewrite !list_lookup_fmap.
  destruct (vol_indx !! j) as [v|] eqn:Hj; cbn.
  - destruct (Hin j v Hj) as [-> [f ->]]. done.
  - rewrite lookup_ge_None_2; [done|].
    rewrite Hlen. by apply lookup_ge_None_1.
Qed.

End denoising.

Lemma denoise_data_early_failures_witness :
  denoise_data (λ call, Ok (call_imgs call)) (inr []) demo.img [] [0] 2%Q 100
    "cosine" "yes" "no" = Raise IndexError ∧
  denoise_data (λ call, Ok (call_imgs call)) (inr [demo.img]) demo.img []
    [0] 2%Q 0 "cosine" "yes" "no" = Raise ZeroDivisionError ∧
  ∃ call,
    clean_request (inl demo.img) demo.img [] [0] 2%Q (-100)
      "cosine" "yes" "no" = Ok call ∧
    call_kwargs call = kwargs_opts "cosine" [0] 2%Q (Qinv (inject_Z (-100))).
Proof.
  destruct (denoise_data_early_failures (λ call, Ok (call_imgs call))
              demo.img [] [0] 2%Q "cosine" "yes" "no" (inr []) 100)
    as (Hempty & _ & _).
  destruct (denoise_data_early_failures (λ call, Ok (call_imgs call))
              demo.img [] [0] 2%Q "cosine" "yes" "no" (inr [demo.img]) 0)
    as (_ & Hzero & _).
  destruct (denoise_data_early_failures (λ call, Ok (call_imgs call))
              demo.img [] [0] 2%Q "cosine" "yes" "no" (inl demo.img) (-100))
    as (_ & _ & Hcall).
  split; [by apply Hempty|]. split; [by apply Hzero|].
  destruct Hcall as (call & Hreq & Hkw & _); [done|done|].
  by exists call.
Defined.

Lemma denoise_data_pads_to_input_length_witness :
  ∃ pad_concat,
    denoise_data (λ call, Ok (call_imgs call)) (inl demo.img) demo.img []
      [0] 2%Q 100 "cosine" "yes" "no" = Ok (demo.img, pad_concat) ∧
    length (frames pad_concat) = 1%nat ∧
    spatial pad_concat = spatial demo.img ∧
    (λ v, frames pad_concat !! Z.to_nat v) <$> [0]
    = Some <$> frames demo.img.
Proof.
  apply (denoise_data_pads_to_input_length (λ call, Ok (call_imgs call))
           demo.img [] [0] 2%Q "cosine" "yes" "no" (inl demo.img) 100
           {| call_imgs := demo.img; call_mask_img := demo.img;
              call_confounds := []; call_detrend := true;
              call_standardize := None;
              call_kwargs :=
                kwargs_opts "cosine" [0] 2%Q (Qinv (inject_Z 100)) |}
           demo.img).
  - reflexivity.
  - reflexivity.
  - reflexivity.
  - repeat constructor.
  - repeat constructor; simpl; lia.
Defined.

(** ** Resolution of the requested kinds *)

Lemma dict_get_set {V} (d : list (string * V)) (k k' : string) (v : V) :
  dict_get (dict_set d k v) k'
  = if bool_decide (k = k') then Some v else dict_get d k'.
Proof.
  induction d as [|[k0 v0] d IH]; simpl.
  - done.
  - destruct (decide (k0 = k)) as [->|Hne].
    + rewrite (bool_decide_eq_true_2 (k = k)) by done. simpl.
      by case_bool_decide.
    + rewrite (bool_decide_eq_false_2 (k0 = k)) by done. simpl.
      rewrite IH. repeat case_bool_decide; congruence.
Qed.

Lemma dict_set_absent {V} (d : list (string * V)) (k : string) (v : V) :
  dict_get d k = None → dict_set d k v = d ++ [(k, v)].
Proof.
  induction d as [|[k0 v0] d IH]; simpl; [done|].
  case_bool_decide; [done|]. intros Hd. by rewrite IH.
Qed.

Lemma dict_set_same {V} (d : list (string * V)) (k : string) (v : V) :
  dict_get d k = Some v → dict_set d k v = d.
Proof.
  induction d as [|[k0 v0] d IH]; simpl; [done|].
  case_bool_decide as Hk.
  - intros [= ->]. by rewrite Hk.
  - intros Hd. by rewrite IH.
Qed.

(** The dict built by the comprehension over [l]. *)
Lemma comprehension_lookup (l : list string) (k : string) :
  dict_get
    (foldl (λ d r, match dict_get regressor_dict r with
                   | Some v => dict_set d r v
                   | None => d
                   end) [] l) k
  = if bool_decide (k ∈ l) then dict_get regressor_dict k else None.
Proof.
  induction l as [|r l IH] using rev_ind.
  { by rewrite bool_decide_eq_false_2 by apply not_elem_of_nil. }
  rewrite foldl_app. cbn [foldl].
  destruct (dict_get regressor_dict r) as [v|] eqn:Hr.
  - rewrite dict_get_set, IH.
    destruct (decide (r = k)) as [->|Hne].
    + rewrite bool_decide_eq_true_2 by done.
      rewrite (bool_decide_eq_true_2 (k ∈ l ++ [k])); [done|].
      apply elem_of_app. right. left.
    + rewrite (bool_decide_eq_false_2 (r = k)) by done.
      apply (f_equal (λ b : bool, if b then _ else _)).
      apply bool_decide_ext. rewrite elem_of_app, list_elem_of_singleton.
      split; [auto|]. intros [?|?]; [done|congruence].
  - rewrite IH. destruct (decide (r = k)) as [->|Hne].
    + rewrite Hr. by repeat case_bool_decide.
    + apply (f_equal (λ b : bool, if b then _ else _)).
      apply bool_decide_ext. rewrite elem_of_app, list_elem_of_singleton.
      split; [auto|]. intros [?|?]; [done|congruence].
Qed.

Lemma append_loop (items ns : list string) :
  foldl (λ ns item, ns ++ [item]) ns items = ns ++ items.
Proof.
  revert ns. induction items as [|x items IH]; intros ns; simpl.
  - by rewrite app_nil_r.
  - by rewrite IH, <- app_assoc.
Qed.

Lemma regressor_names_repeat (l1 l2 : list string) (r : string) :
  r ∈ l1 → regressor_names (l1 ++ r :: l2) = regressor_names (l1 ++ l2).
Proof.
  intros Hr. unfold regressor_names, regressor_list.
  rewrite !foldl_app. cbn [foldl].
  destruct (dict_get regressor_dict r) as [v|] eqn:Hv; [|done].
  rewrite dict_set_same; [done|].
  by rewrite comprehension_lookup, bool_decide_eq_true_2.
Qed.

Lemma regressor_names_snoc (l : list string) (r : string) :
  r ∉ l → regressor_names (l ++ [r]) = regressor_names l ++ alias_columns r.
Proof.
  intros Hr. unfold regressor_names, regressor_list, alias_columns.
  rewrite foldl_app. cbn [foldl].
  destruct (dict_get regressor_dict r) as [v|] eqn:Hv.
  - rewrite dict_set_absent
      by (by rewrite comprehension_lookup, bool_decide_eq_false_2).
    rewrite fmap_app, foldl_app. cbn [fmap list_fmap foldl snd].
    destruct v as [c|cs]; [done|]. apply append_loop.
  - by rewrite app_nil_r.
Qed.

(** X9. The resolved column names follow the order in which the kinds
    were first requested: a kind requested again later adds nothing, and
    a kind requested for the first time appends its columns, in table
    order, to those resolved so far. *)
Theorem regressor_names_first_request (l l2 : list string) (r : string) :
  (r ∈ l → regressor_names (l ++ r :: l2) = regressor_names (l ++ l2)) ∧
  (r ∉ l → regressor_names (l ++ [r]) = regressor_names l ++ alias_columns r).
Proof.
  split; [apply regressor_names_repeat|apply regressor_names_snoc].
Qed.

Lemma regressor_names_first_request_witness :
  regressor_names (["DVARS"; "FD"] ++ "DVARS" :: ["aCompCor"])
  = regressor_names (["DVARS"; "FD"] ++ ["aCompCor"]) ∧
  regressor_names (["DVARS"] ++ ["FD"])
  = regressor_names ["DVARS"] ++ alias_columns "FD".
Proof.
  destruct (regressor_names_first_request ["DVARS"; "FD"] ["aCompCor"]
              "DVARS") as [Hrep _].
  destruct (regressor_names_first_request ["DVARS"] [] "FD") as [_ Hnew].
  split; [apply Hrep|apply Hnew]; by_compute.
Defined.

Lemma elem_of_regressor_names (l : list string) (c : string) :
  c ∈ regressor_names l ↔ ∃ r, r ∈ l ∧ c ∈ alias_columns r.
Proof.
  induction l as [|r l IH] using rev_ind.
  { split; [by intros ?%elem_of_nil|]. by intros (r & ?%elem_of_nil & _). }
  destruct (decide (r ∈ l)) as [Hin|Hnin].
  - rewrite (regressor_names_repeat l [] r Hin), app_nil_r, IH.
    split; intros (r' & Hr' & Hc); exists r'; (split; [|done]).
    + apply elem_of_app. by left.
    + apply elem_of_app in Hr' as [?|Heq%list_elem_of_singleton];
        [done|by subst].
  - rewrite regressor_names_snoc, elem_of_app, IH by done. split.
    + intros [(r' & Hr' & Hc)|Hc].
      * exists r'. split; [|done]. apply elem_of_app. by left.
      * exists r. split; [|done]. apply elem_of_app. right. left.
    + intros (r' & [Hr'|Heq%list_elem_of_singleton]%elem_of_app & Hc);
        [left; by exists r'|subst; by right].
Qed.

Lemma alias_columns_cases (r : string) :
  (r = "FD" ∧ alias_columns r = ["framewise_displacement"]) ∨
  (r = "DVARS" ∧ alias_columns r = ["std_dvars"]) ∨
  (r = "aCompCor" ∧
   alias_columns r = ["a_comp_cor_00"; "a_comp_cor_01"; "a_comp_cor_02";
                      "a_comp_cor_03"; "a_comp_cor_04"]) ∨
  alias_columns r = [].
Proof.
  unfold alias_columns, regressor_dict, dict_get.
  repeat case_bool_decide; subst; auto.
Qed.

Lemma alias_columns_disjoint (r r' c : string) :
  c ∈ alias_columns r → c ∈ alias_columns r' → r = r'.
Proof.
  destruct (alias_columns_cases r) as [[-> ->] | [[-> ->] | [[-> ->] | ->]]],
    (alias_columns_cases r') as [[-> ->] | [[-> ->] | [[-> ->] | ->]]];
    try done;
    rewrite ?elem_of_cons, ?elem_of_nil; intros H1 H2;
    repeat match goal with
           | H : _ ∨ _ |- _ => destruct H as [H|H]
           | H : False |- _ => destruct H
           end; subst; done.
Qed.

Lemma alias_columns_NoDup (r : string) : NoDup (alias_columns r).
Proof.
  destruct (alias_columns_cases r) as [[-> ->] | [[-> ->] | [[-> ->] | ->]]];
    by_compute.
Qed.

(** X10. The resolved names are exactly the columns of the requested
    kinds that are in the table, each of them once: requesting a kind
    twice, in any position, never selects a column twice. *)
Theorem regressor_names_exact (regressor_opts : list string) :
  NoDup (regressor_names regressor_opts) ∧
  ∀ c, c ∈ regressor_names regressor_opts
       ↔ ∃ r, r ∈ regressor_opts ∧ c ∈ alias_columns r.
Proof.
  split; [|apply elem_of_regressor_names].
  induction regressor_opts as [|r l IH] using rev_ind; [constructor|].
  destruct (decide (r ∈ l)) as [Hin|Hnin].
  - by rewrite (regressor_names_repeat l [] r Hin), app_nil_r.
  - rewrite regressor_names_snoc by done.
    apply NoDup_app. split; [done|]. split; [|apply alias_columns_NoDup].
    intros c (r' & Hr' & Hc)%elem_of_regressor_names Hc'.
    by rewrite (alias_columns_disjoint _ _ _ Hc Hc') in Hr'.
Qed.

(** ** The loop over the regressor names *)

Lemma getitem_Ok (df : pd.DataFrame) (name : string) :
  name ∈ df.*1 → ∃ col, pd.getitem df name = Ok col ∧ (name, col) ∈ df.
Proof.
  induction df as [|[k col] df IH]; [by intros ?%elem_of_nil|].
  rewrite fmap_cons. simpl. intros Hin. case_bool_decide as Hk.
  - subst. exists col. split; [done|left].
  - apply elem_of_cons in Hin as [?|Hin]; [congruence|].
    destruct (IH Hin) as (col' & -> & Hmem). exists col'.
    split; [done|by right].
Qed.

Lemma getitem_KeyError (df : pd.DataFrame) (name : string) :
  name ∉ df.*1 → pd.getitem df name = Raise KeyError.
Proof.
  induction df as [|[k col] df IH]; [done|].
  rewrite fmap_cons. intros [Hne Hnin]%not_elem_of_cons. simpl.
  rewrite bool_decide_eq_false_2 by (simpl in Hne; congruence). by apply IH.
Qed.

(** The series the loop makes of one column. *)
Lemma regressor_series_getitem confounds dropvols regressor :
  regressor_series confounds dropvols regressor
  = col ← pd.getitem confounds regressor;
    mret (pd.iloc_from dropvols
            (if bool_decide (regressor = "framewise_displacement")
                || bool_decide (regressor = "std_dvars")
             then pd.fillna 0 col else col)).
Proof. unfold regressor_series. by repeat case_bool_decide. Qed.

Lemma regressors_loop_app confounds dropvols names acc :
  regressors_loop confounds dropvols names acc
  = (acc ++.) <$> regressors_loop confounds dropvols names [].
Proof.
  revert acc. induction names as [|name names IH]; intros acc; simpl.
  { by rewrite app_nil_r. }
  destruct (regressor_series confounds dropvols name) as [s|]; [|done].
  cbn. rewrite IH, (IH [s]).
  destruct (regressors_loop confounds dropvols names []); [|done].
  cbn. by rewrite <- app_assoc.
Qed.

Lemma regressors_loop_cons confounds dropvols name names :
  regressors_loop confounds dropvols (name :: names) []
  = s ← regressor_series confounds dropvols name;
    (s ::.) <$> regressors_loop confounds dropvols names [].
Proof.
  simpl. destruct (regressor_series confounds dropvols name) as [s|]; [|done].
  cbn. by rewrite regressors_loop_app.
Qed.

Lemma regressors_loop_Ok confounds dropvols names :
  Forall (λ name, name ∈ confounds.*1) names →
  ∃ regressors,
    regressors_loop confounds dropvols names [] = Ok regressors ∧
    Forall2 (λ name s, regressor_series confounds dropvols name = Ok s)
      names regressors.
Proof.
  induction 1 as [|name names Hin _ IH].
  { exists []. split; [done|constructor]. }
  destruct IH as (regs & Hregs & Hall).
  destruct (getitem_Ok _ _ Hin) as (col & Hcol & _).
  rewrite regressors_loop_cons, Hregs.
  rewrite regressor_series_getitem, Hcol. cbn.
  eexists. split; [done|]. constructor; [|done].
  by rewrite regressor_series_getitem, Hcol.
Qed.

(** X11. The loop fails exactly on a name that is not a column of the
    confound table, and then with [KeyError]; when every name is a column
    it returns one series per name. *)
Theorem regressors_loop_missing_column
    (confounds : pd.DataFrame) (dropvols : Z) (regressor_names : list string) :
  (Exists (λ name, name ∉ confounds.*1) regressor_names →
   regressors_loop confounds dropvols regressor_names [] = Raise KeyError) ∧
  (Forall (λ name, name ∈ confounds.*1) regressor_names →
   ∃ regressors,
     regressors_loop confounds dropvols regressor_names [] = Ok regressors ∧
     length regressors = length regressor_names).
Proof.
  split.
  - induction regressor_names as [|name names IH]; intros Hex.
    { by apply Exists_nil in Hex. }
    rewrite regressors_loop_cons, regressor_series_getitem.
    destruct (decide (name ∈ confounds.*1)) as [Hin|Hnin].
    + destruct (getitem_Ok _ _ Hin) as (col & -> & _). cbn.
      rewrite IH; [done|].
      apply Exists_cons in Hex as [?|?]; done.
    + by rewrite getitem_KeyError.
  - intros (regs & Hregs & Hall)%(regressors_loop_Ok _ dropvols).
    exists regs. split; [done|]. symmetry. by eapply Forall2_length.
Qed.

Lemma regressors_loop_missing_column_witness :
  regressors_loop demo.confounds 0 ["std_dvars"; "csf"] [] = Raise KeyError ∧
  ∃ regressors,
    regressors_loop demo.confounds 0 ["std_dvars"; "a_comp_cor_00"] []
    = Ok regressors ∧
    length regressors = 2%nat.
Proof.
  destruct (regressors_loop_missing_column demo.confounds 0
              ["std_dvars"; "csf"]) as [Hmiss _].
  destruct (regressors_loop_missing_column demo.confounds 0
              ["std_dvars"; "a_comp_cor_00"]) as [_ Hall].
  split.
  - apply Hmiss. apply Exists_cons_tl, Exists_cons_hd. by_compute.
  - apply Hall. repeat constructor; by_compute.
Defined.

Lemma max_list_const (n : nat) (ls : list nat) :
  ls ≠ [] → Forall (λ m, m = n) ls → max_list ls = n.
Proof.
  intros Hne Hall. induction Hall as [|m ls -> Hall IH]; [done|].
  simpl. destruct ls as [|m' ls]; [simpl; lia|].
  rewrite IH by done. lia.
Qed.

Lemma iloc_from_drop (start : Z) (s : list pd.cell) :
  0 ≤ start ≤ Z.of_nat (length s) →
  pd.iloc_from start s = drop (Z.to_nat start) s.
Proof.
  intros Hs. unfold pd.iloc_from, pd.slice_start.
  rewrite bool_decide_eq_false_2 by lia. f_equal. lia.
Qed.

Lemma length_fillna (v : Q) (s : list pd.cell) :
  length (pd.fillna v s) = length s.
Proof. unfold pd.fillna. apply length_fmap. Qed.

(** X12. Leading volumes are dropped from every column alike. For a table
    whose requested columns all have [N] rows and [0 <= dropvols <= N],
    the regressor matrix has [N - dropvols] rows of one entry per name,
    and the entry in row [i] under a name is the table entry of row
    [dropvols + i], with a missing value turned into zero for the two
    motion columns only. *)
Theorem motion_params_rows
    (confounds : pd.DataFrame) (dropvols : Z) (regressor_names : list string)
    (N : nat) :
  regressor_names ≠ [] →
  Forall (λ name, ∃ col, pd.getitem confounds name = Ok col ∧ length col = N)
    regressor_names →
  0 ≤ dropvols ≤ Z.of_nat N →
  ∃ regressors,
    regressors_loop confounds dropvols regressor_names [] = Ok regressors ∧
    pd.shape0 (pd.frame_of_series regressors) = (N - Z.to_nat dropvols)%nat ∧
    Forall (λ row, length row = length regressor_names)
      (pd.frame_of_series regressors) ∧
    ∀ (i j : nat) name col row,
      regressor_names !! j = Some name →
      pd.getitem confounds name = Ok col →
      pd.frame_of_series regressors !! i = Some row →
      ∃ c, col !! (Z.to_nat dropvols + i)%nat = Some c ∧
           row !! j
           = Some (if (bool_decide (name = "framewise_displacement")
                       || bool_decide (name = "std_dvars")) && pd.isna c
                   then pd.Num 0 else c).
Proof.
  intros Hne Hcols Hdrop.
  assert (∃ regressors,
            regressors_loop confounds dropvols regressor_names []
            = Ok regressors ∧
            Forall2 (λ name s, ∃ col,
                       pd.getitem confounds name = Ok col ∧ length col = N ∧
                       s = drop (Z.to_nat dropvols)
                             (if bool_decide (name = "framewise_displacement")
                                 || bool_decide (name = "std_dvars")
                              then pd.fillna 0 col else col))
              regressor_names regressors) as (regs & Hregs & Hall).
  { clear Hne. induction Hcols as [|name names (col & Hcol & Hlen) _ IH].
    { exists []. split; [done|constructor]. }
    destruct IH as (regs & Hregs & Hall).
    rewrite regressors_loop_cons, Hregs, regressor_series_getitem, Hcol. cbn.
    eexists. split; [done|]. constructor; [|done].
    exists col. split; [done|]. split; [done|].
    apply iloc_from_drop.
    destruct (_ || _); rewrite ?length_fillna; lia. }
  exists regs. split; [done|].
  assert (Forall (λ s, length s = (N - Z.to_nat dropvols)%nat) regs) as Hlens.
  { apply Forall_forall. intros s Hs.
    apply list_elem_of_lookup in Hs as [j Hj].
    destruct (Forall2_lookup_r _ _ _ _ _ Hall Hj)
      as (name & _ & col & _ & Hlen & ->).
    rewrite length_drop. destruct (_ || _); rewrite ?length_fillna; lia. }
  assert (max_list (length <$> regs) = (N - Z.to_nat dropvols)%nat) as Hmax.
  { apply max_list_const.
    - apply Forall2_length in Hall. destruct regressor_names, regs; done.
    - by apply Forall_fmap. }
  unfold pd.frame_of_series, pd.shape0. rewrite Hmax.
  split; [by rewrite length_fmap, length_seq|]. split.
  - apply Forall_fmap, Forall_true. intros i. cbn.
    rewrite length_fmap. symmetry. by eapply Forall2_length.
  - intros i j name col row Hj Hcol Hrow.
    rewrite list_lookup_fmap in Hrow.
    destruct (seq 0 _ !! i) as [i'|] eqn:Hi; [|done].
    apply lookup_seq in Hi as [-> Hi]. cbn in Hrow. injection Hrow as <-.
    destruct (Forall2_lookup_l _ _ _ _ _ Hall Hj)
      as (s & Hs & col' & Hcol' & Hlen & ->).
    rewrite Hcol in Hcol'. injection Hcol' as <-.
    destruct (lookup_lt_is_Some_2 col (Z.to_nat dropvols + i)) as [c Hc];
      [lia|].
    exists c. split; [done|].
    rewrite list_lookup_fmap, Hs. cbn. f_equal.
    rewrite lookup_drop.
    destruct (_ || _); cbn.
    + unfold pd.fillna. rewrite list_lookup_fmap, Hc. cbn. by destruct c.
    + by rewrite Hc.
Qed.

Lemma motion_params_rows_witness :
  ∃ regressors,
    regressors_loop demo.confounds 1 ["framewise_displacement"; "a_comp_cor_00"]
      [] = Ok regressors ∧
    pd.frame_of_series regressors
    = [[pd.Num (1 # 2); pd.NaN]; [pd.Num (1 # 4); pd.Num 4]] ∧
    pd.shape0 (pd.frame_of_series regressors) = 2%nat.
Proof.
  destruct (motion_params_rows demo.confounds 1
              ["framewise_displacement"; "a_comp_cor_00"] 3)
    as (regs & Hregs & Hshape & _).
  - done.
  - repeat constructor; eexists; (split; [reflexivity|reflexivity]).
  - lia.
  - exists regs. split; [done|]. split; [|done].
    vm_compute in Hregs. injection Hregs as <-. reflexivity.
Defined.

(** ** Strings, numerals and file names *)

Lemma list_ascii_app (s t : string) :
  list_ascii_of_string (s +:+ t)
  = list_ascii_of_string s ++ list_ascii_of_string t.
Proof. induction s as [|c s IH]; [done|]. cbn. by rewrite <- IH. Qed.


Lemma is_nat_pretty_N_char (d : N) :
  (d < 10)%N → Ascii.is_nat (pretty_N_char d) = Some (N.to_nat d).
Proof.
  intros Hd.
  assert (d = 0 ∨ d = 1 ∨ d = 2 ∨ d = 3 ∨ d = 4 ∨ d = 5 ∨ d = 6 ∨ d = 7
          ∨ d = 8 ∨ d = 9)%N as Hcases by lia.
  repeat (destruct Hcases as [->|Hcases]; [done|]). by subst.
Qed.

Lemma parse_digits_pretty_N_go (x : N) (s : string) :
  pd.parse_digits 0 (pretty_N_go x s) = pd.parse_digits (Z.of_N x) s.
Proof.
  revert s. induction (N.lt_wf_0 x) as [x _ IH]; intros s.
  destruct (decide (0 < x)%N) as [Hx|Hx].
  - rewrite pretty_N_go_step by done.
    rewrite IH by (apply N.div_lt; lia).
    cbn [pd.parse_digits].
    rewrite is_nat_pretty_N_char by (apply N.mod_lt; lia). cbn.
    f_equal. pose proof (N.div_mod x 10). lia.
  - replace x with 0%N by lia. by rewrite pretty_N_go_0.
Qed.

Lemma pretty_N_go_head (x : N) (s : string) :
  (0 < x)%N →
  ∃ d rest, (d < 10)%N ∧ pretty_N_go x s = String (pretty_N_char d) rest.
Proof.
  revert s. induction (N.lt_wf_0 x) as [x _ IH]; intros s Hx.
  rewrite pretty_N_go_step by done.
  destruct (decide (0 < x `div` 10)%N) as [Hq|Hq].
  - apply IH; [apply N.div_lt; lia|done].
  - apply N.nlt_ge, N.le_0_r in Hq. rewrite Hq, pretty_N_go_0.
    eexists _, _. split; [|done]. by apply N.mod_lt.
Qed.

Lemma parse_int_digit (d : N) (rest : string) :
  (d < 10)%N →
  pd.parse_int (String (pretty_N_char d) rest)
  = pd.parse_digits 0 (String (pretty_N_char d) rest).
Proof.
  intros Hd.
  assert (d = 0 ∨ d = 1 ∨ d = 2 ∨ d = 3 ∨ d = 4 ∨ d = 5 ∨ d = 6 ∨ d = 7
          ∨ d = 8 ∨ d = 9)%N as Hcases by lia.
  repeat (destruct Hcases as [->|Hcases]; [done|]). by subst.
Qed.

Lemma parse_int_pretty_pos (p : positive) :
  pd.parse_digits 0 (pretty_N_go (N.pos p) "") = Some (Z.pos p) ∧
  pd.parse_int (pretty_N_go (N.pos p) "") = Some (Z.pos p) ∧
  ∃ c rest, pretty_N_go (N.pos p) "" = String c rest.
Proof.
  destruct (pretty_N_go_head (N.pos p) "") as (d & rest & Hd & Hhead);
    [lia|].
  assert (pd.parse_digits 0 (pretty_N_go (N.pos p) "") = Some (Z.pos p))
    as Hdigits by (by rewrite parse_digits_pretty_N_go).
  split; [done|]. split; [|by eauto].
  rewrite Hhead, parse_int_digit by done. by rewrite <- Hhead.
Qed.

(** Reading a printed integer gives the integer back. *)
Lemma parse_int_pretty (z : Z) : pd.parse_int (pretty z) = Some z.
Proof.
  destruct z as [|p|p]; [done| |].
  - apply parse_int_pretty_pos.
  - destruct (parse_int_pretty_pos p) as (Hdigits & _ & c & rest & Hhead).
    change (pretty (Z.neg p))
      with (String "-"%char (pretty_N_go (N.pos p) "")).
    rewrite Hhead. rewrite Hhead in Hdigits.
    change (pd.parse_int (String "-" (String c rest)))
      with (Z.opp <$> pd.parse_digits 0 (String c rest)).
    by rewrite Hdigits.
Qed.

Lemma parse_int_not_dash (c : ascii) (s : string) :
  c ≠ "-"%char → pd.parse_int (String c s) = pd.parse_digits 0 (String c s).
Proof.
  intros Hc. destruct c as [[] [] [] [] [] [] [] []]; done.
Qed.

Lemma parse_int_format_02d (z : Z) : pd.parse_int (format_02d z) = Some z.
Proof.
  pose proof (parse_int_pretty z) as H. unfold format_02d.
  destruct (pretty z) as [|c [|c' s]]; [done| |done].
  destruct (decide (c = "-"%char)) as [->|Hc]; [done|].
  rewrite parse_int_not_dash in H by done.
  change (pd.parse_int ("0" +:+ String c ""))
    with (pd.parse_digits 0 (String c "")). done.
Qed.

Lemma match_slash {A} (c : ascii) (x y : A) :
  c ≠ "/"%char → match c with "/"%char => x | _ => y end = y.
Proof. intros Hc. destruct c as [[] [] [] [] [] [] [] []]; done. Qed.

(** [os.path.join] only puts something ahead of a relative second part. *)
Lemma path_join_relative (a : string) :
  ∃ prefix, ∀ c b, c ≠ "/"%char →
    path_join a (String c b) = prefix +:+ String c b.
Proof.
  assert (∀ s t : string, (s +:+ "/") +:+ t = s +:+ "/" +:+ t) as Hassoc.
  { intros s t. induction s as [|x s IH]; [done|].
    change (String x ((s +:+ "/") +:+ t) = String x (s +:+ "/" +:+ t)).
    by rewrite IH. }
  unfold path_join. destruct (String.rev a) as [|c0 r].
  - exists "". intros c b Hc. cbv beta iota. by rewrite match_slash.
  - destruct (decide (c0 = "/"%char)) as [->|Hc0].
    + exists a. intros c b Hc. cbv beta iota. by rewrite match_slash.
    + exists (a +:+ "/"). intros c b Hc. cbv beta iota.
      rewrite (match_slash c) by done. rewrite (match_slash c0) by done.
      by rewrite Hassoc.
Qed.


Lemma motion_file_ne_scrub_file (outDir sub : string) (run_id : Z) :
  motion_file outDir sub run_id ≠ scrub_file outDir sub run_id.
Proof.
  unfold motion_file, scrub_file.
  destruct (path_join_relative (path_join outDir "regressors"))
    as [prefix Hjoin].
  change ("sub-" +:+ ?x) with (String "s" ("ub-" +:+ x)).
  rewrite !Hjoin by done. intros H.
  apply (inj (String.app prefix)) in H. injection H as H.
  apply (inj (String.app "")), (inj (String.app sub)) in H.
  apply (inj (String.app "_run-")), (inj (String.app (format_02d run_id)))
    in H.
  discriminate.
Qed.



(** ** The retained-volumes file read back *)

Lemma string_app_nil_r (s : string) : s +:+ "" = s.
Proof.
  induction s as [|c s IH]; [done|].
  change (String c (s +:+ "") = String c s). by rewrite IH.
Qed.

Lemma rev_app_rev_app (s a b : string) :
  String.rev_app (String.rev_app s a) b = String.rev_app a (s +:+ b).
Proof.
  revert a. induction s as [|c s IH]; intros a; [done|].
  cbn [String.rev_app]. by rewrite IH.
Qed.

Lemma rev_rev (s : string) : String.rev (String.rev s) = s.
Proof.
  unfold String.rev. rewrite rev_app_rev_app. cbn [String.rev_app].
  apply string_app_nil_r.
Qed.

Lemma lines_go_no_lf (s t cur : string) :
  "010"%char ∉ list_ascii_of_string s →
  pd.lines_go cur (s +:+ t) = pd.lines_go (String.rev_app s cur) t.
Proof.
  revert cur. induction s as [|c s IH]; intros cur Hs; [done|].
  cbn [list_ascii_of_string] in Hs. apply not_elem_of_cons in Hs as [Hc Hs].
  change (String c s +:+ t) with (String c (s +:+ t)).
  cbn [pd.lines_go String.rev_app].
  destruct (Ascii.eqb c "010") eqn:E.
  - apply Ascii.eqb_eq in E. congruence.
  - by apply IH.
Qed.

Lemma lines_row (s rest : string) :
  "010"%char ∉ list_ascii_of_string s →
  pd.lines (s +:+ String "010"%char EmptyString +:+ rest)
  = s :: pd.lines rest.
Proof.
  intros Hs. unfold pd.lines. rewrite lines_go_no_lf by done.
  change (String "010" "" +:+ rest) with (String "010"%char rest).
  cbn [pd.lines_go]. change (Ascii.eqb "010" "010") with true. cbn.
  f_equal. apply (rev_rev s).
Qed.

Lemma pretty_N_char_no_lf (d : N) : pretty_N_char d ≠ "010"%char.
Proof. unfold pretty_N_char. by repeat case_match. Qed.

Lemma pretty_N_go_no_lf (x : N) (s : string) :
  "010"%char ∉ list_ascii_of_string s →
  "010"%char ∉ list_ascii_of_string (pretty_N_go x s).
Proof.
  revert s. induction (N.lt_wf_0 x) as [x _ IH]; intros s Hs.
  destruct (decide (0 < x)%N) as [Hx|Hx].
  - rewrite pretty_N_go_step by done. apply IH; [apply N.div_lt; lia|].
    cbn [list_ascii_of_string]. apply not_elem_of_cons. split; [|done].
    intros Heq. by eapply pretty_N_char_no_lf.
  - apply N.nlt_ge, N.le_0_r in Hx. by rewrite Hx, pretty_N_go_0.
Qed.

Lemma pretty_Z_no_lf (z : Z) : "010"%char ∉ list_ascii_of_string (pretty z).
Proof.
  destruct z as [|p|p].
  - by_compute.
  - apply pretty_N_go_no_lf, not_elem_of_nil.
  - change (pretty (Z.neg p))
      with (String "-"%char (pretty_N_go (N.pos p) "")).
    cbn [list_ascii_of_string]. apply not_elem_of_cons. split; [done|].
    apply pretty_N_go_no_lf, not_elem_of_nil.
Qed.

Lemma to_csv_column (l : list Z) :
  pd.lines (pd.to_csv pretty ((λ v, [v]) <$> l))
  = (pretty <$> l) ++ [EmptyString].
Proof.
  induction l as [|v l IH]; [done|].
  rewrite !fmap_cons. cbn [pd.to_csv foldr app].
  change (pd.join_with _ (pretty <$> [v])) with (pretty v).
  rewrite lines_row by apply pretty_Z_no_lf. f_equal. exact IH.
Qed.

Lemma mapM_parse_int_pretty (l : list Z) :
  mapM pd.parse_int (pretty <$> l) = Some l.
Proof.
  induction l as [|v l IH]; [done|].
  rewrite fmap_cons. cbn [mapM]. rewrite parse_int_pretty. cbn.
  change ((mapM pd.parse_int (pretty <$> l) ≫= λ k, mret (v :: k))
          = Some (v :: l)).
  by rewrite IH.
Qed.

Lemma filter_Forall {A} (P : A → Prop) `{∀ x, Decision (P x)} (l : list A) :
  Forall P l → filter P l = l.
Proof.
  induction 1 as [|x l Hx _ IH]; [done|].
  by rewrite filter_cons, decide_True, IH.
Qed.

Lemma pretty_Z_nonempty (z : Z) : pretty z ≠ EmptyString.
Proof.
  intros Heq. pose proof (parse_int_pretty z) as H. by rewrite Heq in H.
Qed.

Lemma read_int_column_to_csv (fs : gmap string string) (path : string)
    (l : list Z) :
  fs !! path = Some (pd.to_csv pretty ((λ v, [v]) <$> l)) →
  pd.read_int_column fs path
  = match l with [] => Raise EmptyDataError | _ => Ok l end.
Proof.
  intros Hfile. unfold pd.read_int_column. rewrite Hfile, to_csv_column.
  rewrite filter_app, (filter_Forall _ (pretty <$> l)).
  - rewrite (filter_none _ [EmptyString]), app_nil_r.
    + destruct l as [|v l]; [done|].
      pose proof (mapM_parse_int_pretty (v :: l)) as Hparse.
      rewrite fmap_cons in Hparse |- *. by rewrite Hparse.
    + intros x Hx%list_elem_of_singleton. by intros ?.
  - apply Forall_fmap, Forall_true. intros v. apply pretty_Z_nonempty.
Qed.

(** ** What a run leaves in the file system *)

Section persisted.

Context (read_table : string → result pd.DataFrame).
Context (float_repr : Q → string).
Context (sub confound_file art_file : string).
Context (regressor_opts regressor_names : list string).
Context (dropvols run_id : Z) (outDir : string).

#[local] Abbreviation builder_on fs :=
  (create_motion_reg read_table float_repr fs sub confound_file art_file
     regressor_opts regressor_names dropvols run_id outDir).

(** X14. A successful run writes two distinct files and touches nothing
    else: the regressor file holds the returned matrix, one tab-separated
    line per row with an empty field for a missing value, the
    retained-volumes file holds the returned mask, and every other path
    of the file system reads as before. *)
Theorem builder_writes_two_files fs fs' out :
  builder_on fs = Ok (fs', out) →
  motion_file outDir sub run_id ≠ scrub_file outDir sub run_id ∧
  fs' !! motion_file outDir sub run_id
  = Some (pd.to_csv (cell_field float_repr) (motion_params out)) ∧
  fs' !! scrub_file outDir sub run_id
  = Some (pd.to_csv pretty ((λ v, [v]) <$> vol_indx out)) ∧
  ∀ path, path ≠ motion_file outDir sub run_id →
          path ≠ scrub_file outDir sub run_id →
          fs' !! path = fs !! path.
Proof.
  intros (_ & _ & _ & _ & _ & _ & _ & _ & _ & ->)%create_motion_reg_Ok.
  pose proof (motion_file_ne_scrub_file outDir sub run_id) as Hne.
  unfold persist. split; [done|]. split; [|split].
  - by rewrite lookup_insert_ne, lookup_insert_eq.
  - by rewrite lookup_insert_eq.
  - intros path Hm Hs. by rewrite !lookup_insert_ne.
Qed.

(** X15. The retained-volumes file is in the format of the outlier file:
    read back as a column of integers it gives the returned sample mask,
    and when the mask is empty the file has zero bytes and the reader
    reports [EmptyDataError]. *)
Theorem retained_volumes_file_reads_back fs fs' out :
  builder_on fs = Ok (fs', out) →
  (vol_indx out ≠ [] →
   pd.read_int_column fs' (scrub_file outDir sub run_id)
   = Ok (vol_indx out)) ∧
  (vol_indx out = [] →
   fs' !! scrub_file outDir sub run_id = Some EmptyString ∧
   pd.read_int_column fs' (scrub_file outDir sub run_id)
   = Raise EmptyDataError).
Proof.
  intros (_ & _ & _ & _ & _ & _ & _ & _ & _ & ->)%create_motion_reg_Ok.
  assert (persist float_repr fs outDir sub run_id out
            !! scrub_file outDir sub run_id
          = Some (pd.to_csv pretty ((λ v, [v]) <$> vol_indx out))) as Hfile.
  { unfold persist. by rewrite lookup_insert_eq. }
  pose proof (read_int_column_to_csv _ _ _ Hfile) as Hread.
  split; intros Hvi.
  - rewrite Hread. by destruct (vol_indx out).
  - rewrite Hread, Hfile, Hvi. done.
Qed.

End persisted.

Lemma demo_run_Ok :
  demo.run demo.fs ["FD"; "art"]
  = Ok (persist demo.float_repr demo.fs "/out" "01" 1 demo.out, demo.out).
Proof.
  apply create_motion_reg_Ok.
  exists "confounds", demo.confounds,
    [[pd.Num 0; pd.Num (1 # 2); pd.Num (1 # 4)]].
  split; [vm_compute; reflexivity|]. split; [reflexivity|].
  split; [vm_compute; reflexivity|]. repeat split; reflexivity.
Qed.

Lemma builder_writes_two_files_witness :
  motion_file "/out" "01" 1 ≠ scrub_file "/out" "01" 1 ∧
  persist demo.float_repr demo.fs "/out" "01" 1 demo.out
    !! motion_file "/out" "01" 1
  = Some (pd.to_csv (cell_field demo.float_repr) (motion_params demo.out)) ∧
  persist demo.float_repr demo.fs "/out" "01" 1 demo.out
    !! scrub_file "/out" "01" 1
  = Some (pd.to_csv pretty ((λ v, [v]) <$> vol_indx demo.out)) ∧
  ∀ path, path ≠ motion_file "/out" "01" 1 →
          path ≠ scrub_file "/out" "01" 1 →
          persist demo.float_repr demo.fs "/out" "01" 1 demo.out !! path
          = demo.fs !! path.
Proof.
  apply (builder_writes_two_files demo.read_table demo.float_repr
           "01" "conf.tsv" "art.txt" ["FD"; "art"]
           (regressor_names ["FD"; "art"]) 0 1 "/out" demo.fs
           (persist demo.float_repr demo.fs "/out" "01" 1 demo.out) demo.out).
  exact demo_run_Ok.
Defined.

Lemma retained_volumes_file_reads_back_witness :
  pd.read_int_column (persist demo.float_repr demo.fs "/out" "01" 1 demo.out)
    (scrub_file "/out" "01" 1)
  = Ok [0; 2].
Proof.
  destruct (retained_volumes_file_reads_back demo.read_table
              demo.float_repr "01" "conf.tsv" "art.txt" ["FD"; "art"]
              (regressor_names ["FD"; "art"]) 0 1 "/out" demo.fs
              (persist demo.float_repr demo.fs "/out" "01" 1 demo.out)
              demo.out demo_run_Ok) as [Hread _].
  apply Hread. discriminate.
Defined.

(** ** Options without any regressor kind of the table *)

Lemma regressor_names_nil (regressor_opts : list string) :
  Forall (λ r, r ∉ regressor_dict.*1) regressor_opts →
  regressor_names regressor_opts = [].
Proof.
  intros Hopts. rewrite Forall_forall in Hopts.
  destruct (regressor_names regressor_opts) as [|c l] eqn:E; [done|].
  assert (c ∈ regressor_names regressor_opts) as Hc by (rewrite E; left).
  apply elem_of_regressor_names in Hc as (r & Hr & Hc).
  unfold alias_columns in Hc.
  rewrite (dict_get_None _ _ (Hopts r Hr)) in Hc. by apply elem_of_nil in Hc.
Qed.

Section no_kind.

Context (read_table : string → result pd.DataFrame).
Context (float_repr : Q → string).
Context (fs : gmap string string) (sub confound_file art_file : string).
Context (regressor_opts : list string) (dropvols run_id : Z).
Context (outDir : string).

(** X16. When none of the requested options is a kind of the alias table
    (for instance when [art] is the only option) the regressor matrix has
    no rows, so the retained range is empty as well: the run returns an
    empty sample mask, unless scrubbing is requested and an outlier is
    listed, in which case every outlier index is out of bounds and the run
    raises [IndexError]. *)
Theorem no_recognised_kind (text : string) (confounds : pd.DataFrame)
    (o : list Z) :
  Forall (λ r, r ∉ regressor_dict.*1) regressor_opts →
  fs !! confound_file = Some text →
  read_table text = Ok confounds →
  read_outliers fs art_file = Ok o →
  ("art" ∉ regressor_opts ∨ o = [] →
   ∃ fs', regressorinfo read_table float_repr fs sub confound_file art_file
            regressor_opts dropvols run_id outDir
          = Ok (fs', {| motion_params := []; vol_indx := [];
                        outliers := o |})) ∧
  ("art" ∈ regressor_opts → o ≠ [] →
   regressorinfo read_table float_repr fs sub confound_file art_file
     regressor_opts dropvols run_id outDir = Raise IndexError).
Proof.
  intros Hopts%regressor_names_nil Htext Htab Ho.
  unfold regressorinfo, create_motion_reg.
  rewrite Hopts, Htext, Htab. cbn. rewrite Ho. cbn.
  unfold retained_volumes, scrub_requested. split.
  - intros [Hart | ->].
    + rewrite bool_decide_eq_false_2 by done. cbn. by eexists.
    + destruct (bool_decide _); cbn; by eexists.
  - intros Hart Hne. rewrite bool_decide_eq_true_2 by done.
    rewrite bool_decide_eq_true_2 by (by destruct o).
    assert (np.delete (np.arange 0) o = Raise IndexError) as ->; [|done].
    destruct o as [|i o]; [done|]. destruct (decide (0 ≤ i)).
    + apply delete_out_of_bounds. rewrite length_arange.
      apply Exists_cons_hd. lia.
    + apply delete_below_bounds. rewrite length_arange.
      apply Exists_cons_hd. lia.
Qed.

End no_kind.

Lemma no_recognised_kind_witness :
  (∃ fs', demo.run demo.fs_empty_art ["art"]
          = Ok (fs', {| motion_params := []; vol_indx := [];
                        outliers := [] |})) ∧
  demo.run demo.fs ["art"] = Raise IndexError.
Proof.
  destruct (no_recognised_kind demo.read_table demo.float_repr
              demo.fs_empty_art "01" "conf.tsv" "art.txt" ["art"] 0 1 "/out"
              "confounds" demo.confounds []) as [Hempty _].
  { repeat constructor. by_compute. }
  { vm_compute. reflexivity. }
  { reflexivity. }
  { vm_compute. reflexivity. }
  destruct (no_recognised_kind demo.read_table demo.float_repr
              demo.fs "01" "conf.tsv" "art.txt" ["art"] 0 1 "/out"
              "confounds" demo.confounds [1]) as [_ Hfail].
  { repeat constructor. by_compute. }
  { vm_compute. reflexivity. }
  { reflexivity. }
  { vm_compute. reflexivity. }
  split; [apply Hempty; by right|apply Hfail; [by_compute|done]].
Defined.

(** ** Concatenation of strings *)

Lemma string_app_assoc (s t u : string) : (s +:+ t) +:+ u = s +:+ t +:+ u.
Proof.
  induction s as [|x s IH]; [done|].
  change (String x ((s +:+ t) +:+ u) = String x (s +:+ t +:+ u)).
  by rewrite IH.
Qed.

(** ** The regressor options of the configuration file *)

Lemma join_with_cons (sep t t' : string) (ts : list string) :
  pd.join_with sep (t :: t' :: ts)
  = t +:+ sep +:+ pd.join_with sep (t' :: ts).
Proof.
  unfold pd.join_with. cbn [foldl].
  generalize t'. clear t'. induction ts as [|u ts IH]; intros t'; [done|].
  cbn [foldl]. rewrite <- IH. f_equal. by rewrite !string_app_assoc.
Qed.

Lemma remove_spaces_app (s t : string) :
  remove_spaces (s +:+ t) = remove_spaces s +:+ remove_spaces t.
Proof.
  induction s as [|c s IH]; [done|].
  change (String c s +:+ t) with (String c (s +:+ t)).
  cbn [remove_spaces]. rewrite IH. by destruct (Ascii.eqb c " ").
Qed.

Lemma remove_spaces_id (s : string) :
  " "%char ∉ list_ascii_of_string s → remove_spaces s = s.
Proof.
  induction s as [|c s IH]; [done|]. cbn [list_ascii_of_string].
  intros [Hc Hs]%not_elem_of_cons. cbn [remove_spaces].
  destruct (Ascii.eqb c " ") eqn:E.
  - apply Ascii.eqb_eq in E. congruence.
  - by rewrite IH.
Qed.

Lemma remove_spaces_join (ts : list string) :
  Forall (λ t, " "%char ∉ list_ascii_of_string t) ts →
  remove_spaces (pd.join_with ", " ts) = pd.join_with "," ts.
Proof.
  induction 1 as [|t ts Ht Hts IH]; [done|].
  destruct ts as [|t' ts]; [by apply remove_spaces_id|].
  rewrite !join_with_cons, !remove_spaces_app, IH.
  by rewrite remove_spaces_id.
Qed.

Lemma split_go_no_comma (s t cur : string) :
  ","%char ∉ list_ascii_of_string s →
  split_go cur (s +:+ t) = split_go (String.rev_app s cur) t.
Proof.
  revert cur. induction s as [|c s IH]; intros cur Hs; [done|].
  cbn [list_ascii_of_string] in Hs. apply not_elem_of_cons in Hs as [Hc Hs].
  change (String c s +:+ t) with (String c (s +:+ t)).
  cbn [split_go String.rev_app].
  destruct (Ascii.eqb c ",") eqn:E.
  - apply Ascii.eqb_eq in E. congruence.
  - by apply IH.
Qed.

Lemma split_commas_join (ts : list string) :
  ts ≠ [] →
  Forall (λ t, ","%char ∉ list_ascii_of_string t) ts →
  split_commas (pd.join_with "," ts) = ts.
Proof.
  intros Hne Hts. induction Hts as [|t ts Ht Hts IH]; [done|].
  destruct ts as [|t' ts].
  - unfold split_commas, pd.join_with. cbn [foldl].
    rewrite <- (string_app_nil_r t) at 1.
    rewrite split_go_no_comma by done. cbn [split_go].
    f_equal. apply (rev_rev t).
  - rewrite join_with_cons. unfold split_commas.
    rewrite split_go_no_comma by done.
    change ("," +:+ ?x) with (String ","%char x).
    cbn [split_go]. change (Ascii.eqb "," ",") with true. cbn.
    f_equal; [apply (rev_rev t)|]. by apply IH.
Qed.

(** X17. A [regressors] entry that reaches line 480 as a str is read as
    it was written: a non-empty list of option names free of blanks and
    commas, joined by commas with or without blanks after them, parses to
    that list. *)
Theorem config_regressors_round_trip (opts : list string) :
  opts ≠ [] →
  Forall (λ t, (" "%char ∉ list_ascii_of_string t) ∧
               (","%char ∉ list_ascii_of_string t)) opts →
  config_regressors (PyStr (pd.join_with ", " opts)) = Ok opts ∧
  config_regressors (PyStr (pd.join_with "," opts)) = Ok opts.
Proof.
  intros Hne Hopts. unfold config_regressors.
  assert (Forall (λ t, " "%char ∉ list_ascii_of_string t) opts) as Hsp
    by (eapply Forall_impl; [exact Hopts|]; by intros t [? ?]).
  assert (Forall (λ t, ","%char ∉ list_ascii_of_string t) opts) as Hco
    by (eapply Forall_impl; [exact Hopts|]; by intros t [? ?]).
  split; f_equal.
  - rewrite remove_spaces_join by done. by apply split_commas_join.
  - rewrite remove_spaces_id; [by apply split_commas_join|].
    clear Hne Hopts. induction Hsp as [|t ts Ht Hts IH]; [apply not_elem_of_nil|].
    inversion_clear Hco as [|?? Hct Hcts].
    destruct ts as [|t' ts]; [done|].
    rewrite join_with_cons, !list_ascii_app, !elem_of_app.
    intros [?|[Hc|?]]; [done| |by apply IH].
    by apply list_elem_of_singleton in Hc.
Qed.

Lemma config_regressors_round_trip_witness :
  config_regressors (PyStr (pd.join_with ", " ["FD"; "aCompCor"; "art"]))
  = Ok ["FD"; "aCompCor"; "art"] ∧
  config_regressors (PyStr (pd.join_with "," ["FD"; "aCompCor"; "art"]))
  = Ok ["FD"; "aCompCor"; "art"].
Proof.
  apply (config_regressors_round_trip ["FD"; "aCompCor"; "art"]).
  - done.
  - repeat constructor; by_compute.
Defined.

Lemma remove_spaces_no_space (s : string) :
  " "%char ∉ list_ascii_of_string (remove_spaces s).
Proof.
  induction s as [|c s IH]; [apply not_elem_of_nil|].
  cbn [remove_spaces]. destruct (Ascii.eqb c " ") eqn:E; [done|].
  cbn [list_ascii_of_string]. apply not_elem_of_cons. split; [|done].
  intros <-. by rewrite Ascii.eqb_refl in E.
Qed.

Lemma list_ascii_rev_app (s cur : string) (c : ascii) :
  c ∈ list_ascii_of_string (String.rev_app s cur)
  ↔ c ∈ list_ascii_of_string s ∨ c ∈ list_ascii_of_string cur.
Proof.
  revert cur. induction s as [|x s IH]; intros cur.
  - cbn. rewrite elem_of_nil. tauto.
  - cbn [String.rev_app list_ascii_of_string]. rewrite IH.
    cbn [list_ascii_of_string]. rewrite !elem_of_cons. tauto.
Qed.

Lemma split_go_fields (P : ascii → Prop) (s cur : string) :
  (∀ c, c ∈ list_ascii_of_string s → c ≠ ","%char → P c) →
  (∀ c, c ∈ list_ascii_of_string cur → P c) →
  split_go cur s ≠ [] ∧
  Forall (λ t, ∀ c, c ∈ list_ascii_of_string t → P c) (split_go cur s).
Proof.
  revert cur. induction s as [|x s IH]; intros cur Hs Hcur.
  - cbn [split_go]. split; [done|]. constructor; [|done].
    intros c Hc%list_ascii_rev_app. destruct Hc as [Hc|Hc]; [by apply Hcur|].
    by apply elem_of_nil in Hc.
  - cbn [split_go]. cbn [list_ascii_of_string] in Hs.
    destruct (Ascii.eqb x ",") eqn:E.
    + split; [done|]. constructor.
      * intros c Hc%list_ascii_rev_app.
        destruct Hc as [Hc|Hc]; [by apply Hcur|]. by apply elem_of_nil in Hc.
      * apply IH.
        -- intros c Hc. apply Hs. by right.
        -- by intros c ?%elem_of_nil.
    + apply IH.
      * intros c Hc. apply Hs. by right.
      * cbn [list_ascii_of_string]. intros c [->|Hc]%elem_of_cons.
        -- apply Hs; [left|]. intros ->. by rewrite Ascii.eqb_refl in E.
        -- by apply Hcur.
Qed.

(** X18. Line 480 returns an option list exactly when the [regressors]
    entry is a str; the list is then never empty and no option in it
    contains a blank or a comma. An entry that is [None], as line 468
    leaves an entry that pandas read as missing, or a number raises
    [AttributeError]. *)
Theorem config_regressors_fields (value : config_value) :
  (is_Ok (config_regressors value) ↔ ∃ s, value = PyStr s) ∧
  (∀ opts, config_regressors value = Ok opts →
     opts ≠ [] ∧
     Forall (λ t, (" "%char ∉ list_ascii_of_string t) ∧
                  (","%char ∉ list_ascii_of_string t)) opts) ∧
  ((∀ s, value ≠ PyStr s) → config_regressors value = Raise AttributeError).
Proof.
  split; [|split].
  - destruct value as [s| |x]; cbn.
    + split; [by exists s|]. intros _. by eexists.
    + split; [by intros [? ?]|by intros [? ?]].
    + split; [by intros [? ?]|by intros [? ?]].
  - destruct value as [s| |x]; [|done..]. cbn. intros opts [= <-].
    unfold split_commas.
    destruct (split_go_fields (λ c, c ≠ " "%char ∧ c ≠ ","%char)
                (remove_spaces s) EmptyString) as [Hne Hall].
    + intros c Hc Hcomma. split; [|done]. intros ->.
      by apply (remove_spaces_no_space s).
    + by intros c ?%elem_of_nil.
    + split; [done|].
      eapply Forall_impl; [exact Hall|]. intros t Ht.
      split; intros Hc; by destruct (Ht _ Hc).
  - intros Hns. destruct value as [s| |x]; [|done..]. by destruct (Hns s).
Qed.

Lemma config_regressors_fields_witness :
  is_Ok (config_regressors (PyStr "FD, art")) ∧
  config_regressors PyNone = Raise AttributeError.
Proof.
  destruct (config_regressors_fields (PyStr "FD, art")) as [Hok _].
  destruct (config_regressors_fields PyNone) as (_ & _ & Hnone).
  split; [apply Hok; by eexists|apply Hnone; done].
Defined.

(** ** Eligible runs of a subject *)

Lemma eligible_run (task : string) (sub_runs : list Z) (row : scan_row) :
  eligible task sub_runs row = true →
  MotionExclusion row = false ∧ scan_task row = task ∧
  ∃ r, r ∈ sub_runs ∧ scan_run row = Some (format_02d r) ∧
       (scan_run row ≫= pd.parse_int) = Some r.
Proof.
  unfold eligible. intros [[Hm Ht]%andb_true_iff Hr]%andb_true_iff.
  apply negb_true_iff in Hm. apply bool_decide_eq_true in Ht.
  split; [done|]. split; [done|].
  destruct (scan_run row) as [run|]; [|done].
  apply bool_decide_eq_true, list_elem_of_fmap in Hr as (r & -> & Hr).
  exists r. split; [done|]. split; [done|]. cbn. apply parse_int_format_02d.
Qed.

Lemma keepruns_parsed (task : string) (sub_runs : list Z)
    (rows : list scan_row) :
  Forall (λ row, eligible task sub_runs row = true) rows →
  ∃ runs, mapM (λ run, run ≫= pd.parse_int) (scan_run <$> rows) = Some runs ∧
          length runs = length rows ∧
          Forall2 (λ row r, r ∈ sub_runs ∧
                            scan_run row = Some (format_02d r) ∧
                            scan_task row = task ∧
                            MotionExclusion row = false)
            rows runs.
Proof.
  induction 1 as [|row rows Hrow _ (runs & Hruns & Hlen & Hall)].
  { exists []. split; [done|]. split; [done|constructor]. }
  destruct (eligible_run _ _ _ Hrow) as (? & ? & r & Hr & Hlabel & Hparse).
  exists (r :: runs). rewrite fmap_cons. cbn [mapM]. rewrite Hparse. cbn.
  change (mapM (λ run, run ≫= pd.parse_int) (scan_run <$> rows)
          ≫= (λ k, mret (r :: k)))
    with (mapM (λ run, run ≫= pd.parse_int) (scan_run <$> rows)
          ≫= (λ k, Some (r :: k))).
  rewrite Hruns. cbn. split; [done|]. split; [by rewrite Hlen|].
  by constructor.
Qed.

(** X19. The run selection never fails on a run label: it raises
    [FileNotFoundError] exactly when no row of the scans table is of the
    task, not motion-excluded and labelled with the two-digit form of a
    requested run, and otherwise returns, in table order, one requested
    run id per such row. A label that is not in two-digit form (["1"]
    for run 1) therefore never selects a run. *)
Theorem keepruns_selected (scans_df : list scan_row) (task : string)
    (sub_runs : list Z) :
  (filter (λ row, eligible task sub_runs row = true) scans_df = [] →
   keepruns scans_df task sub_runs = Raise FileNotFoundError) ∧
  (filter (λ row, eligible task sub_runs row = true) scans_df ≠ [] →
   ∃ runs, keepruns scans_df task sub_runs = Ok runs ∧
           Forall2 (λ row r, r ∈ sub_runs ∧
                             scan_run row = Some (format_02d r) ∧
                             scan_task row = task ∧
                             MotionExclusion row = false)
             (filter (λ row, eligible task sub_runs row = true) scans_df)
             runs).
Proof.
  unfold keepruns.
  set (rows := filter (λ row, eligible task sub_runs row = true) scans_df).
  assert (Forall (λ row, eligible task sub_runs row = true) rows) as Hrows.
  { apply Forall_forall. by intros row [? _]%list_elem_of_filter. }
  destruct (keepruns_parsed task sub_runs rows Hrows)
    as (runs & -> & Hlen & Hall).
  split.
  - intros Hnil. rewrite Hnil in Hlen. by destruct runs.
  - intros Hne. exists runs. split; [|done].
    destruct runs; [|done]. by destruct rows.
Qed.

Lemma keepruns_selected_witness :
  keepruns [ {| scan_task := "rest"; scan_run := Some "1";
                MotionExclusion := false |} ] "rest" [1]
  = Raise FileNotFoundError ∧
  ∃ runs,
    keepruns [ {| scan_task := "rest"; scan_run := Some "02";
                  MotionExclusion := false |};
               {| scan_task := "rest"; scan_run := Some "01";
                  MotionExclusion := true |};
               {| scan_task := "pixar"; scan_run := Some "01";
                  MotionExclusion := false |};
               {| scan_task := "rest"; scan_run := Some "03";
                  MotionExclusion := false |} ] "rest" [1; 2; 3]
    = Ok runs ∧
    runs = [2; 3].
Proof.
  split.
  - by apply (keepruns_selected
                [ {| scan_task := "rest"; scan_run := Some "1";
                     MotionExclusion := false |} ] "rest" [1]).
  - destruct (keepruns_selected
                [ {| scan_task := "rest"; scan_run := Some "02";
                     MotionExclusion := false |};
                  {| scan_task := "rest"; scan_run := Some "01";
                     MotionExclusion := true |};
                  {| scan_task := "pixar"; scan_run := Some "01";
                     MotionExclusion := false |};
                  {| scan_task := "rest"; scan_run := Some "03";
                     MotionExclusion := false |} ] "rest" [1; 2; 3])
      as [_ Hsome].
    destruct Hsome as (runs & Hruns & _); [done|].
    exists runs. split; [done|].
    vm_compute in Hruns. by injection Hruns.
Defined.

(** ** The file grabber *)

Section grabber.

Context (sub task derivDir ses : string) (run_id : Z) (outDir : string).

(** X20. A successful grab returns an image file that exists and leaves
    the file system as it was but for a copy of that image, under its own
    base name, in the [preproc] directory of the run. The confound file,
    the outlier file and the mask it returns are those of the fMRIPrep
    directory, whatever the file system holds and whether or not smoothed
    data were asked for. *)
Theorem data_grabber_copy (fs fs' : gmap string string)
    (smoothDir : option string) (files : grabbed) :
  data_grabber fs sub task derivDir smoothDir ses run_id outDir
  = inr (fs', files) →
  grab_mni_file files = mni_file fs sub task derivDir smoothDir ses run_id ∧
  is_Some (fs !! grab_mni_file files) ∧
  fs' !! path_join (preprocDir outDir run_id) (basename (grab_mni_file files))
  = fs !! grab_mni_file files ∧
  fs' !! grab_mni_file files = fs !! grab_mni_file files ∧
  (∀ path,
     path ≠ path_join (preprocDir outDir run_id)
              (basename (grab_mni_file files)) →
     fs' !! path = fs !! path) ∧
  (∀ fs0 fs0' files0 smoothDir0,
     data_grabber fs0 sub task derivDir smoothDir0 ses run_id outDir
     = inr (fs0', files0) →
     grab_confound_file files0 = grab_confound_file files ∧
     grab_art_file files0 = grab_art_file files ∧
     grab_mni_mask files0 = grab_mni_mask files).
Proof.
  unfold data_grabber, shutil_copy.
  destruct (fs !! mni_file _ _ _ _ _ _ _) as [content|] eqn:Hsrc; [|done].
  case_bool_decide as Hsame; [done|].
  intros [= <- <-]. cbn [grab_mni_file grab_confound_file grab_art_file
                         grab_mni_mask].
  split; [done|]. split; [by rewrite Hsrc|].
  split; [by rewrite lookup_insert_eq|].
  split; [by rewrite lookup_insert_ne|].
  split; [intros path Hp; by rewrite lookup_insert_ne|].
  intros fs0 fs0' files0 smoothDir0.
  destruct (fs0 !! _); [|done].
  case_bool_decide; [done|]. by intros [= <- <-].
Qed.

End grabber.

Lemma pretty_N_go_chars (P : ascii → Prop) (x : N) (s : string) :
  (∀ d, P (pretty_N_char d)) →
  Forall P (list_ascii_of_string s) →
  Forall P (list_ascii_of_string (pretty_N_go x s)).
Proof.
  intros Hd. revert s. induction (N.lt_wf_0 x) as [x _ IH]; intros s Hs.
  destruct (decide (0 < x)%N) as [Hx|Hx].
  - rewrite pretty_N_go_step by done. apply IH; [apply N.div_lt; lia|].
    cbn [list_ascii_of_string]. by constructor.
  - apply N.nlt_ge, N.le_0_r in Hx. by rewrite Hx, pretty_N_go_0.
Qed.

Lemma pretty_Z_no_slash (z : Z) :
  Forall (λ c, c ≠ "/"%char) (list_ascii_of_string (pretty z)).
Proof.
  assert (∀ d, pretty_N_char d ≠ "/"%char) as Hd
    by (intros d; unfold pretty_N_char; by repeat case_match).
  destruct z as [|p|p].
  - by repeat constructor.
  - by apply pretty_N_go_chars.
  - change (pretty (Z.neg p))
      with (String "-"%char (pretty_N_go (N.pos p) "")).
    cbn [list_ascii_of_string]. constructor; [done|].
    by apply pretty_N_go_chars.
Qed.

Lemma format_02d_no_slash (z : Z) :
  Forall (λ c, c ≠ "/"%char) (list_ascii_of_string (format_02d z)).
Proof.
  pose proof (pretty_Z_no_slash z) as H. unfold format_02d.
  destruct (pretty z) as [|c [|c' s]]; [done| |done].
  change ("0" +:+ String c "") with (String "0"%char (String c "")).
  cbn [list_ascii_of_string] in *. by constructor.
Qed.

Lemma basename_go_no_slash (s cur : string) :
  Forall (λ c, c ≠ "/"%char) (list_ascii_of_string s) →
  basename_go cur s = String.rev (String.rev_app s cur).
Proof.
  revert cur. induction s as [|c s IH]; intros cur Hs; [done|].
  cbn [list_ascii_of_string] in Hs. inversion_clear Hs as [|?? Hc Hs'].
  cbn [basename_go String.rev_app].
  destruct (Ascii.eqb c "/") eqn:E; [|by apply IH].
  apply Ascii.eqb_eq in E. congruence.
Qed.

Lemma basename_go_dir (p t cur : string) :
  basename_go cur (p +:+ String "/"%char t) = basename_go EmptyString t.
Proof.
  revert cur. induction p as [|c p IH]; intros cur.
  - change ("" +:+ String "/"%char t) with (String "/"%char t).
    cbn [basename_go]. by change (Ascii.eqb "/" "/") with true.
  - change (String c p +:+ String "/"%char t)
      with (String c (p +:+ String "/"%char t)).
    cbn [basename_go]. destruct (Ascii.eqb c "/"); apply IH.
Qed.

Lemma rev_app_app (r acc : string) :
  String.rev_app r acc = String.rev_app r "" +:+ acc.
Proof.
  revert acc. induction r as [|x r IH]; intros acc; [done|].
  cbn [String.rev_app]. rewrite (IH (String x acc)), (IH (String x "")).
  by rewrite string_app_assoc.
Qed.

Lemma ends_with_slash (a r : string) :
  String.rev a = String "/"%char r → ∃ p, a = p +:+ "/".
Proof.
  intros Hrev. exists (String.rev_app r "").
  rewrite <- (rev_rev a), Hrev. unfold String.rev. cbn [String.rev_app].
  apply rev_app_app.
Qed.

(** The base name of a joined path is its last part. *)
Lemma basename_path_join (a name : string) :
  Forall (λ c, c ≠ "/"%char) (list_ascii_of_string name) →
  basename (path_join a name) = name.
Proof.
  intros Hname.
  assert (basename name = name) as Hbase.
  { unfold basename. rewrite basename_go_no_slash by done.
    apply (rev_rev name). }
  assert (∀ p, basename (p +:+ "/" +:+ name) = name) as Hdir.
  { intros p. unfold basename.
    change ("/" +:+ name) with (String "/"%char name).
    rewrite basename_go_dir. exact Hbase. }
  assert (∀ r, String.rev a = String "/"%char r →
               basename (a +:+ name) = name) as Hslash.
  { intros r [p ->]%ends_with_slash. rewrite string_app_assoc. apply Hdir. }
  assert (match String.rev a with
          | EmptyString => name
          | String "/"%char _ => a +:+ name
          | String _ _ => a +:+ "/" +:+ name
          end = path_join a name) as <-.
  { unfold path_join. destruct name as [|c name']; [done|].
    cbn [list_ascii_of_string] in Hname.
    inversion_clear Hname as [|?? Hc Hname'].
    cbv beta iota. by rewrite (match_slash c). }
  destruct (String.rev a) as [|c0 r] eqn:Hrev; [done|].
  destruct (decide (c0 = "/"%char)) as [->|Hc0].
  - by eapply Hslash.
  - rewrite (match_slash c0) by done. apply Hdir.
Qed.

Section grabber_failures.

Context (sub task derivDir ses : string) (run_id : Z).

(** X21. Failures of the grab. An image that does not exist raises
    [FileNotFoundError]. A copy onto the image itself raises
    [SameFileError], and that is what happens when the results directory
    configured for smoothed data is the one the run writes to (the output
    directory of the subject is [sub-<id>] below it) and the smoothed file
    of the run is there. *)
Theorem data_grabber_failures (fs : gmap string string)
    (smoothDir : option string) (outDir dir : string) :
  (fs !! mni_file fs sub task derivDir smoothDir ses run_id = None →
   data_grabber fs sub task derivDir smoothDir ses run_id outDir
   = inl SrcNotFound) ∧
  (Forall (λ c, c ≠ "/"%char)
     (list_ascii_of_string (sub +:+ task +:+ ses)) →
   dir ≠ EmptyString →
   is_Some (fs !! smooth_file dir sub task ses run_id) →
   data_grabber fs sub task derivDir (Some dir) ses run_id
     (path_join dir ("sub-" +:+ sub))
   = inl SameFile).
Proof.
  split.
  - intros Hnone. unfold data_grabber, shutil_copy. by rewrite Hnone.
  - intros Hchars Hdir Hsome. unfold data_grabber, shutil_copy.
    assert (mni_file fs sub task derivDir (Some dir) ses run_id
            = smooth_file dir sub task ses run_id) as ->.
    { unfold mni_file. by rewrite !bool_decide_eq_true_2. }
    destruct Hsome as [content ->].
    rewrite bool_decide_eq_true_2; [done|].
    unfold smooth_file, preprocDir.
    rewrite basename_path_join; [done|].
    rewrite !list_ascii_app, !Forall_app in Hchars.
    destruct Hchars as (Hsub & Htask & Hses).
    pose proof (format_02d_no_slash run_id) as Hrun.
    unfold run_prefix. case_bool_decide;
      rewrite !list_ascii_app, !Forall_app;
      repeat split; try done; by repeat constructor.
Qed.

End grabber_failures.

Lemma data_grabber_failures_witness :
  data_grabber ∅ "01" "rest" "/deriv" None "no" 1 "/out/sub-01"
  = inl SrcNotFound ∧
  data_grabber grab_demo.smoothed_fs "01" "rest" "/deriv" (Some "/res") "no" 1
    (path_join "/res" ("sub-" +:+ "01"))
  = inl SameFile.
Proof.
  destruct (data_grabber_failures "01" "rest" "/deriv" "no" 1 ∅ None
              "/out/sub-01" "") as [Hmissing _].
  destruct (data_grabber_failures "01" "rest" "/deriv" "no" 1
              grab_demo.smoothed_fs None "" "/res") as [_ Hsame].
  split.
  - apply Hmissing. apply lookup_empty.
  - apply Hsame.
    + repeat constructor; discriminate.
    + done.
    + assert (smooth_file "/res" "01" "rest" "no" 1 = grab_demo.smoothed_path)
        as -> by (vm_compute; reflexivity).
      unfold grab_demo.smoothed_fs. rewrite lookup_singleton_eq. by eexists.
Defined.

Lemma grab_demo_run :
  data_grabber grab_demo.fs "01" "rest" "/deriv" (Some "/res") "no" 1
    "/out/sub-01"
  = inr (<[grab_demo.copy_path := "bold"]> grab_demo.fs, grab_demo.files).
Proof.
  unfold data_grabber, shutil_copy.
  assert (smooth_file "/res" "01" "rest" "no" 1 = grab_demo.smoothed_path)
    as Hsmooth by (vm_compute; reflexivity).
  assert (mni_file grab_demo.fs "01" "rest" "/deriv" (Some "/res") "no" 1
          = grab_demo.image_path) as ->.
  { unfold mni_file. rewrite Hsmooth. unfold grab_demo.fs.
    rewrite lookup_singleton_ne by (by_compute).
    rewrite bool_decide_eq_true_2 by done.
    rewrite bool_decide_eq_false_2 by (by intros [? ?]).
    vm_compute. reflexivity. }
  assert (path_join (preprocDir "/out/sub-01" 1)
            (basename grab_demo.image_path) = grab_demo.copy_path) as ->
    by (vm_compute; reflexivity).
  unfold grab_demo.fs at 1. rewrite lookup_singleton_eq.
  rewrite bool_decide_eq_false_2 by (by_compute).
  reflexivity.
Qed.

Lemma data_grabber_copy_witness :
  is_Some (grab_demo.fs !! grab_mni_file grab_demo.files) ∧
  <[grab_demo.copy_path := "bold"]> grab_demo.fs
    !! path_join (preprocDir "/out/sub-01" 1)
         (basename (grab_mni_file grab_demo.files))
  = grab_demo.fs !! grab_mni_file grab_demo.files.
Proof.
  destruct (data_grabber_copy "01" "rest" "/deriv" "no" 1 "/out/sub-01"
              grab_demo.fs (<[grab_demo.copy_path := "bold"]> grab_demo.fs)
              (Some "/res") grab_demo.files grab_demo_run)
    as (_ & Hsome & Hcopy & _).
  by split.
Defined.

(** * The sample mask of a whole run

    The retained range of a run is fixed by the regressor matrix: the
    builder takes its row count for the number of volumes. For a confound
    table of [N] rows and [dropvols] leading volumes dropped the matrix
    has [N - dropvols] rows as soon as one column is requested, and no
    row at all when none is. *)

Lemma getitem_elem_of (df : pd.DataFrame) (name : string) col :
  pd.getitem df name = Ok col → (name, col) ∈ df.
Proof.
  induction df as [|[k c] df IH]; [done|]. simpl.
  case_bool_decide as Hk.
  - intros [= ->]. subst. left.
  - intros H. right. by apply IH.
Qed.

Lemma length_iloc_from (start : Z) (s : list pd.cell) :
  0 ≤ start →
  length (pd.iloc_from start s) = (length s - Z.to_nat start)%nat.
Proof.
  intros Hs. unfold pd.iloc_from, pd.slice_start.
  rewrite bool_decide_eq_false_2 by lia. rewrite length_drop. lia.
Qed.

(** Row count of the regressor matrix of a table of [N] rows. *)
Lemma frame_of_series_rows confounds dropvols names (N : nat) regressors :
  Forall (λ kc, length kc.2 = N) confounds →
  0 ≤ dropvols →
  names ≠ [] →
  regressors_loop confounds dropvols names [] = Ok regressors →
  pd.shape0 (pd.frame_of_series regressors) = (N - Z.to_nat dropvols)%nat.
Proof.
  intros Hrows Hdrop Hne Hloop. rewrite Forall_forall in Hrows.
  assert (length regressors = length names ∧
          Forall (λ s, length s = (N - Z.to_nat dropvols)%nat) regressors)
    as [Hlen Hall].
  { clear Hne. revert regressors Hloop.
    induction names as [|name names IH]; intros regs.
    { intros [= <-]. split; [done|constructor]. }
    rewrite regressors_loop_cons, regressor_series_getitem.
    destruct (pd.getitem confounds name) as [col|] eqn:Hcol; [|done]. cbn.
    destruct (regressors_loop confounds dropvols names []) as [regs'|] eqn:E;
      [|done].
    cbn. intros [= <-]. destruct (IH regs' eq_refl) as [Hlen Hall].
    split; [simpl; congruence|]. constructor; [|done].
    rewrite length_iloc_from by done.
    apply getitem_elem_of, Hrows in Hcol. simpl in Hcol.
    destruct (_ || _); rewrite ?length_fillna; lia. }
  unfold pd.frame_of_series, pd.shape0.
  rewrite length_fmap, length_seq. apply max_list_const.
  - destruct names, regressors; done.
  - by apply Forall_fmap.
Qed.

Lemma regressor_names_some_kind (regressor_opts : list string) :
  Exists (λ r, r ∈ regressor_dict.*1) regressor_opts →
  regressor_names regressor_opts ≠ [].
Proof.
  intros (r & Hr & Hkind)%Exists_exists Hnil.
  assert (∃ c, c ∈ alias_columns r) as [c Hc].
  { change (r ∈ ["FD"; "DVARS"; "aCompCor"]) in Hkind.
    rewrite !elem_of_cons, elem_of_nil in Hkind.
    destruct Hkind as [-> | [-> | [-> | []]]]; eexists; left. }
  assert (c ∈ regressor_names regressor_opts) as Hin
    by (apply elem_of_regressor_names; by exists r).
  rewrite Hnil in Hin. by apply elem_of_nil in Hin.
Qed.

Section run_mask.

Context (read_table : string → result pd.DataFrame).
Context (float_repr : Q → string).
Context (sub confound_file art_file : string).
Context (regressor_opts : list string).
Context (dropvols run_id : Z) (outDir : string).

#[local] Abbreviation node_on fs :=
  (regressorinfo read_table float_repr fs sub confound_file art_file
     regressor_opts dropvols run_id outDir).

(** The run on a table of [N] rows of which at least one column is
    requested: the matrix has [N - dropvols] rows and the mask is the one
    computed for that many volumes. *)
Lemma node_on_table fs text confounds (N : nat) o :
  fs !! confound_file = Some text →
  read_table text = Ok confounds →
  read_outliers fs art_file = Ok o →
  Forall (λ kc, length kc.2 = N) confounds →
  Forall (λ name, name ∈ confounds.*1) (regressor_names regressor_opts) →
  Exists (λ r, r ∈ regressor_dict.*1) regressor_opts →
  0 ≤ dropvols →
  ∃ params,
    pd.shape0 params = (N - Z.to_nat dropvols)%nat ∧
    node_on fs
    = vi ← retained_volumes regressor_opts (N - Z.to_nat dropvols) o;
      mret (persist float_repr fs outDir sub run_id
              {| motion_params := params; vol_indx := vi; outliers := o |},
            {| motion_params := params; vol_indx := vi; outliers := o |}).
Proof.
  intros Htext Htab Ho Hrows Hcols Hkind%regressor_names_some_kind Hdrop.
  destruct (regressors_loop_Ok confounds dropvols _ Hcols)
    as (regs & Hregs & _).
  pose proof (frame_of_series_rows _ _ _ _ _ Hrows Hdrop Hkind Hregs) as Hn.
  exists (pd.frame_of_series regs). split; [done|].
  unfold regressorinfo, create_motion_reg, persist.
  rewrite Htext, Htab. cbn. rewrite Ho. cbn. rewrite Hregs. cbn.
  rewrite Hn. by destruct (retained_volumes _ _ _).
Qed.

(** C2 (amended). For a confound table of [N] rows that holds the
    requested columns, at least one requested option being a kind of the
    alias table, [dropvols >= 0] leading volumes dropped and so
    [n = N - dropvols] post-drop volumes: with scrubbing enabled and every
    index of the outlier list inside [[0, n)], the run succeeds and its
    sample mask is the increasing listing of [[0, n)] without the
    outliers: strictly increasing, holding exactly the indices of
    [[0, n)] that are not outliers, [n - |O|] of them, [O] being the set
    of outlier indices. *)
Theorem sample_mask_sorted_complement fs text confounds (N : nat) o :
  fs !! confound_file = Some text →
  read_table text = Ok confounds →
  read_outliers fs art_file = Ok o →
  Forall (λ kc, length kc.2 = N) confounds →
  Forall (λ name, name ∈ confounds.*1) (regressor_names regressor_opts) →
  Exists (λ r, r ∈ regressor_dict.*1) regressor_opts →
  0 ≤ dropvols →
  "art" ∈ regressor_opts →
  Forall (λ i, 0 ≤ i < Z.of_nat (N - Z.to_nat dropvols)) o →
  ∃ fs' out,
    node_on fs = Ok (fs', out) ∧
    outliers out = o ∧
    vol_indx out
    = filter (λ v, v ∉ o) (np.arange (N - Z.to_nat dropvols)) ∧
    (∀ v, v ∈ vol_indx out
          ↔ 0 ≤ v < Z.of_nat (N - Z.to_nat dropvols) ∧ v ∉ o) ∧
    StronglySorted Z.lt (vol_indx out) ∧
    length (vol_indx out)
    = (N - Z.to_nat dropvols - size (list_to_set o : gset Z))%nat.
Proof.
  intros Htext Htab Ho Hrows Hcols Hkind Hdrop Hart Hrange.
  destruct (node_on_table fs text confounds N o) as (params & _ & ->);
    try done.
  destruct (sample_mask_complement regressor_opts _ _ Hart Hrange)
    as [-> Hsorted].
  eexists _, _. split; [reflexivity|]. cbn [outliers vol_indx].
  split; [done|]. split; [done|]. split; [|split; [done|]].
  - intros v. rewrite list_elem_of_filter, elem_of_arange. tauto.
  - by apply length_complement.
Qed.

(** C8 (amended). For the same runs (a table of [N] rows holding the
    requested columns, at least one requested option a kind of the alias
    table, [dropvols >= 0]): when the scrub option is not requested the
    run succeeds and its sample mask is the full retained range
    [[0, N - dropvols)], whatever the non-empty outlier list holds. *)
Theorem sample_mask_without_scrubbing fs text confounds (N : nat) o :
  fs !! confound_file = Some text →
  read_table text = Ok confounds →
  read_outliers fs art_file = Ok o →
  Forall (λ kc, length kc.2 = N) confounds →
  Forall (λ name, name ∈ confounds.*1) (regressor_names regressor_opts) →
  Exists (λ r, r ∈ regressor_dict.*1) regressor_opts →
  0 ≤ dropvols →
  o ≠ [] →
  "art" ∉ regressor_opts →
  ∃ fs' out,
    node_on fs = Ok (fs', out) ∧
    outliers out = o ∧
    vol_indx out = np.arange (N - Z.to_nat dropvols).
Proof.
  intros Htext Htab Ho Hrows Hcols Hkind Hdrop _ Hart.
  destruct (node_on_table fs text confounds N o) as (params & _ & ->);
    try done.
  unfold retained_volumes, scrub_requested.
  rewrite bool_decide_eq_false_2 by done.
  eexists _, _. split; [reflexivity|]. done.
Qed.

(** C4 (amended). An outlier file of zero bytes gives an empty outlier
    list without any error; if moreover the confound table has [N] rows
    and holds the requested columns, at least one requested option is a
    kind of the alias table and [dropvols >= 0], the run succeeds and its
    sample mask is the full retained range [[0, N - dropvols)], with or
    without the scrub option. An outlier file that does not exist makes
    the run fail with [FileNotFoundError]. *)
Theorem empty_outlier_file fs text confounds :
  fs !! confound_file = Some text →
  read_table text = Ok confounds →
  (fs !! art_file = Some EmptyString →
   read_outliers fs art_file = Ok [] ∧
   ∀ N : nat,
     Forall (λ kc, length kc.2 = N) confounds →
     Forall (λ name, name ∈ confounds.*1) (regressor_names regressor_opts) →
     Exists (λ r, r ∈ regressor_dict.*1) regressor_opts →
     0 ≤ dropvols →
     ∃ fs' out,
       node_on fs = Ok (fs', out) ∧
       outliers out = [] ∧
       vol_indx out = np.arange (N - Z.to_nat dropvols)) ∧
  (fs !! art_file = None →
   read_outliers fs art_file = Raise FileNotFoundError ∧
   node_on fs = Raise FileNotFoundError).
Proof.
  intros Htext Htab. split; intros Hart.
  - assert (read_outliers fs art_file = Ok []) as Ho.
    { unfold read_outliers, pd.read_int_column. by rewrite Hart. }
    split; [done|]. intros N Hrows Hcols Hkind Hdrop.
    destruct (node_on_table fs text confounds N []) as (params & _ & ->);
      try done.
    unfold retained_volumes.
    destruct (scrub_requested regressor_opts); cbn;
      eexists _, _; (split; [reflexivity|done]).
  - assert (read_outliers fs art_file = Raise FileNotFoundError) as Ho.
    { unfold read_outliers, pd.read_int_column. by rewrite Hart. }
    split; [done|]. unfold regressorinfo, create_motion_reg.
    rewrite Htext, Htab. cbn. by rewrite Ho.
Qed.

(** C5 (amended). The regressor matrix is not cut down to the sample
    mask. A run that succeeds on a confound table of [N] rows with
    [dropvols >= 0] writes out the matrix it returns; that matrix has
    [N - dropvols] rows, one per post-drop volume, when at least one
    requested option is a kind of the alias table, and no row when none
    is. The sample mask never has more entries than the matrix has rows,
    it has exactly as many when scrubbing is not requested or no outlier
    is listed, and with scrubbing and every outlier index inside
    [[0, row count)] it is shorter by the number of distinct outliers. *)
Theorem regressor_matrix_rows fs fs' out text confounds (N : nat) :
  node_on fs = Ok (fs', out) →
  fs !! confound_file = Some text →
  read_table text = Ok confounds →
  Forall (λ kc, length kc.2 = N) confounds →
  0 ≤ dropvols →
  fs' !! motion_file outDir sub run_id
  = Some (pd.to_csv (cell_field float_repr) (motion_params out)) ∧
  (Exists (λ r, r ∈ regressor_dict.*1) regressor_opts →
   pd.shape0 (motion_params out) = (N - Z.to_nat dropvols)%nat) ∧
  (Forall (λ r, r ∉ regressor_dict.*1) regressor_opts →
   pd.shape0 (motion_params out) = 0%nat) ∧
  (length (vol_indx out) ≤ pd.shape0 (motion_params out))%nat ∧
  ("art" ∉ regressor_opts ∨ outliers out = [] →
   length (vol_indx out) = pd.shape0 (motion_params out)) ∧
  ("art" ∈ regressor_opts →
   Forall (λ i, 0 ≤ i < Z.of_nat (pd.shape0 (motion_params out)))
     (outliers out) →
   length (vol_indx out)
   = (pd.shape0 (motion_params out)
      - size (list_to_set (outliers out) : gset Z))%nat).
Proof.
  intros (text' & confounds' & regs & Htext' & Htab' & _ & Hregs & Hmp & Hvi
          & ->)%create_motion_reg_Ok Htext Htab Hrows Hdrop.
  rewrite Htext in Htext'. injection Htext' as <-.
  rewrite Htab in Htab'. injection Htab' as <-.
  split; [|split; [|split; [|split; [|split]]]].
  - unfold persist.
    rewrite lookup_insert_ne by apply not_eq_sym, motion_file_ne_scrub_file.
    by rewrite lookup_insert_eq.
  - intros Hkind%regressor_names_some_kind. rewrite Hmp.
    by eapply frame_of_series_rows.
  - intros Hnone%regressor_names_nil. rewrite Hnone in Hregs.
    injection Hregs as <-. by rewrite Hmp.
  - by eapply retained_volumes_length.
  - intros Hoff. unfold retained_volumes, scrub_requested in Hvi.
    destruct Hoff as [Hart | Hnone].
    + rewrite bool_decide_eq_false_2 in Hvi by done.
      injection Hvi as <-. apply length_arange.
    + rewrite Hnone in Hvi. case_bool_decide; simpl in Hvi;
        injection Hvi as <-; apply length_arange.
  - intros Hart Hrange.
    destruct (sample_mask_complement regressor_opts _ _ Hart Hrange)
      as (Hvi' & _).
    rewrite Hvi' in Hvi. injection Hvi as <-.
    by apply length_complement.
Qed.

End run_mask.

(** The table of the demo run has three rows. *)
Lemma demo_confounds_rows : Forall (λ kc, length kc.2 = 3%nat) demo.confounds.
Proof. repeat constructor. Qed.

Lemma sample_mask_sorted_complement_witness :
  ∃ fs' out,
    regressorinfo demo.read_table demo.float_repr demo.fs "01" "conf.tsv"
      "art.txt" ["FD"; "art"] 1 1 "/out" = Ok (fs', out) ∧
    outliers out = [1] ∧
    vol_indx out = filter (λ v, v ∉ [1]) (np.arange (3 - Z.to_nat 1)) ∧
    (∀ v, v ∈ vol_indx out ↔ 0 ≤ v < Z.of_nat (3 - Z.to_nat 1) ∧ v ∉ [1]) ∧
    StronglySorted Z.lt (vol_indx out) ∧
    length (vol_indx out)
    = (3 - Z.to_nat 1 - size (list_to_set [1]%Z : gset Z))%nat.
Proof.
  apply (sample_mask_sorted_complement demo.read_table demo.float_repr
           "01" "conf.tsv" "art.txt" ["FD"; "art"] 1 1 "/out" demo.fs
           "confounds" demo.confounds 3 [1]).
  - vm_compute. reflexivity.
  - reflexivity.
  - vm_compute. reflexivity.
  - exact demo_confounds_rows.
  - by_compute.
  - apply Exists_cons_hd. by_compute.
  - lia.
  - by_compute.
  - repeat constructor; vm_compute; congruence.
Defined.

(** With scrubbing enabled and no regressor kind of the alias table among
    the options, the matrix has no rows, the retained range is taken to
    be empty, and an outlier inside the range of the three volumes of the
    run is out of bounds: no sample mask is returned. *)
Lemma scrubbing_without_regressor_kind :
  Forall (λ kc, length kc.2 = 3%nat) demo.confounds ∧
  read_outliers demo.fs "art.txt" = Ok [1] ∧
  Forall (λ i, 0 ≤ i < 3) [1] ∧
  "art" ∈ ["art"] ∧
  demo.run demo.fs ["art"] = Raise IndexError.
Proof.
  split; [exact demo_confounds_rows|]. split; [vm_compute; reflexivity|].
  split; [repeat constructor; lia|]. split; [by_compute|].
  vm_compute. reflexivity.
Qed.

Lemma sample_mask_without_scrubbing_witness :
  ∃ fs' out,
    regressorinfo demo.read_table demo.float_repr demo.fs "01" "conf.tsv"
      "art.txt" ["FD"; "DVARS"] 1 1 "/out" = Ok (fs', out) ∧
    outliers out = [1] ∧
    vol_indx out = np.arange (3 - Z.to_nat 1).
Proof.
  apply (sample_mask_without_scrubbing demo.read_table demo.float_repr
           "01" "conf.tsv" "art.txt" ["FD"; "DVARS"] 1 1 "/out" demo.fs
           "confounds" demo.confounds 3 [1]).
  - vm_compute. reflexivity.
  - reflexivity.
  - vm_compute. reflexivity.
  - exact demo_confounds_rows.
  - by_compute.
  - apply Exists_cons_hd. by_compute.
  - lia.
  - done.
  - by_compute.
Defined.

(** Without the scrub option and without any regressor kind of the alias
    table among the options, the run on the table of three rows returns
    an empty sample mask, not the range of its three volumes. *)
Lemma unscrubbed_mask_without_regressor_kind :
  Forall (λ kc, length kc.2 = 3%nat) demo.confounds ∧
  read_outliers demo.fs "art.txt" = Ok [1] ∧
  ("art" ∉ ["CSF"]) ∧
  ∃ fs' out,
    demo.run demo.fs ["CSF"] = Ok (fs', out) ∧
    vol_indx out = [] ∧
    vol_indx out ≠ np.arange 3.
Proof.
  split; [exact demo_confounds_rows|]. split; [vm_compute; reflexivity|].
  split; [by_compute|].
  eexists _, _. split; [vm_compute; reflexivity|]. split; [reflexivity|done].
Qed.

Lemma empty_outlier_file_witness :
  read_outliers demo.fs_empty_art "art.txt" = Ok [] ∧
  ∃ fs' out,
    demo.run demo.fs_empty_art ["FD"; "art"] = Ok (fs', out) ∧
    outliers out = [] ∧
    vol_indx out = np.arange (3 - Z.to_nat 0).
Proof.
  destruct (empty_outlier_file demo.read_table demo.float_repr
              "01" "conf.tsv" "art.txt" ["FD"; "art"] 0 1 "/out"
              demo.fs_empty_art "confounds" demo.confounds)
    as [Hempty _].
  - vm_compute. reflexivity.
  - reflexivity.
  - destruct Hempty as [Ho Hrun]; [vm_compute; reflexivity|].
    split; [exact Ho|]. apply (Hrun 3%nat).
    + exact demo_confounds_rows.
    + by_compute.
    + apply Exists_cons_hd. by_compute.
    + lia.
Defined.

(** An outlier file that does not exist is an error of the run, not an
    empty outlier list. *)
Lemma absent_outlier_file_raises :
  demo.fs_no_art !! "art.txt" = None ∧
  read_outliers demo.fs_no_art "art.txt" = Raise FileNotFoundError ∧
  demo.run demo.fs_no_art ["FD"; "art"] = Raise FileNotFoundError.
Proof. split; [|split]; vm_compute; reflexivity. Qed.

Lemma regressor_matrix_rows_witness :
  pd.shape0 (motion_params demo.out) = (3 - Z.to_nat 0)%nat ∧
  (length (vol_indx demo.out) ≤ pd.shape0 (motion_params demo.out))%nat ∧
  length (vol_indx demo.out)
  = (pd.shape0 (motion_params demo.out)
     - size (list_to_set (outliers demo.out) : gset Z))%nat.
Proof.
  destruct (regressor_matrix_rows demo.read_table demo.float_repr
              "01" "conf.tsv" "art.txt" ["FD"; "art"] 0 1 "/out" demo.fs
              (persist demo.float_repr demo.fs "/out" "01" 1 demo.out)
              demo.out "confounds" demo.confounds 3)
    as (_ & Hrows & _ & Hle & _ & Hscrub).
  - exact demo_run_Ok.
  - vm_compute. reflexivity.
  - reflexivity.
  - exact demo_confounds_rows.
  - lia.
  - split; [apply Hrows, Exists_cons_hd; by_compute|].
    split; [exact Hle|]. apply Hscrub; [by_compute|].
    repeat constructor; vm_compute; congruence.
Defined.

(** With scrubbing and a listed outlier the persisted matrix has more
    rows than the sample mask has entries. *)
Lemma regressor_matrix_longer_than_mask :
  ∃ fs' out,
    demo.run demo.fs ["FD"; "art"] = Ok (fs', out) ∧
    pd.shape0 (motion_params out) = 3%nat ∧
    length (vol_indx out) = 2%nat.
Proof.
  eexists _, _. split; [vm_compute; reflexivity|]. split; reflexivity.
Qed.
